(** * user-panel to-do list: the task store and the reminder scanner

    A shallow embedding of [lib/database.ts] (the IndexedDB task store),
    [hooks/useTasks.ts] (the React state kept in sync with the store),
    [hooks/useReminders.ts] (the reminder scanner) and of what the components
    compute ([App], [TaskList], [AddTaskModal], [TaskItem],
    [DatePickerCalendar]), followed by their properties.

    Times are milliseconds since the epoch, as [Date.prototype.getTime]
    returns them; an invalid date (a [NaN] time value) is [None]. *)

From Stdlib Require Import ZArith Ascii String List Lia.
From stdpp Require Import base decidable option list sorting gmap strings pretty.

Open Scope string_scope.
Open Scope list_scope.
Open Scope Z_scope.

(** ** The JavaScript host

    The scanner reads its due timestamp through [Number] and the local-time
    [Date] constructor, and the store orders tasks through the parsing [Date]
    constructor. Their results depend on the host (time zone, number syntax),
    so they are an interface; the properties below hold for every host. *)

Class JsHost := {
  (** the values [Number] returns *)
  JsNum : Type;
  (** [Number(s)] *)
  Number : string -> JsNum;
  (** [n - 1] *)
  minus_one : JsNum -> JsNum;
  (** [new Date(year, monthIndex, day, hours, minutes, 0).getTime()] *)
  DateLocal : JsNum -> JsNum -> JsNum -> JsNum -> JsNum -> option Z;
  (** [new Date(s).getTime()] *)
  DateParse : string -> option Z
}.

(** [s.split(sep)] for a one-character separator. *)
Fixpoint split (sep : ascii) (s : string) : list string :=
  match s with
  | EmptyString => [EmptyString]
  | String c rest =>
      if Ascii.eqb c sep then EmptyString :: split sep rest
      else match split sep rest with
           | cur :: more => String c cur :: more
           | [] => [String c EmptyString]
           end
  end.

(** JavaScript truthiness of a string: only the empty string is falsy. *)
Definition truthy (s : string) : bool :=
  match s with EmptyString => false | String _ _ => true end.

(** ** Data model *)

Record Task := mkTask {
  id : string;
  title : string;
  description : string;
  due_date : option string;
  due_time : option string;
  completed : bool;
  reminder_shown : bool;
  created_at : string;
  updated_at : string
}.

(** [Partial<Task>]: every key may be absent ([None]). *)
Record PartialTask := mkPartial {
  p_id : option string;
  p_title : option string;
  p_description : option string;
  p_due_date : option (option string);
  p_due_time : option (option string);
  p_completed : option bool;
  p_reminder_shown : option bool;
  p_created_at : option string;
  p_updated_at : option string
}.

Definition no_updates : PartialTask :=
  mkPartial None None None None None None None None None.

(** [{ ...task, ...updates }] *)
Definition spread (task : Task) (updates : PartialTask) : Task :=
  {| id := default (id task) (p_id updates);
     title := default (title task) (p_title updates);
     description := default (description task) (p_description updates);
     due_date := default (due_date task) (p_due_date updates);
     due_time := default (due_time task) (p_due_time updates);
     completed := default (completed task) (p_completed updates);
     reminder_shown := default (reminder_shown task) (p_reminder_shown updates);
     created_at := default (created_at task) (p_created_at updates);
     updated_at := default (updated_at task) (p_updated_at updates) |}.

#[global] Instance Task_eq_dec : EqDecision Task.
Proof. solve_decision. Defined.

#[global] Instance PartialTask_eq_dec : EqDecision PartialTask.
Proof. solve_decision. Defined.

(** Outcome of a promise. *)
Inductive Error :=
  | RequestError
  | ConstraintError
  | JsError (message : string).

Inductive Result (A : Type) :=
  | Resolve (a : A)
  | Reject (e : Error).
Arguments Resolve {A} a.
Arguments Reject {A} e.

Definition succeeded {A} (r : Result A) : bool :=
  match r with Resolve _ => true | Reject _ => false end.

(** ** [DatabaseService]

    The object store [tasks] has key path [id]: a finite map from ids to
    records. [ok] tells whether IndexedDB serves the call ([getDb] opens and
    no request reports an error); each operation returns its promise's
    outcome and the store it leaves. *)

Module database.

Abbreviation Store := (gmap string Task).

(** [store.getAll()]: the records, in the order the map lists them (the
    order is immaterial to what follows: the result is sorted next). *)
Definition getAll (db : Store) : list Task := (map_to_list db).*2.

(** The comparator of [getAllTasks]:
    [new Date(b.created_at).getTime() - new Date(a.created_at).getTime()],
    a [NaN] being read as [+0] by [Array.prototype.sort]. *)
Definition compareFn `{host : JsHost} (a b : Task) : Z :=
  match DateParse (created_at b), DateParse (created_at a) with
  | Some tb, Some ta => tb - ta
  | _, _ => 0
  end.

(** [Array.prototype.sort] is stable: insertion sort. *)
Fixpoint insert_sorted (cmp : Task -> Task -> Z) (x : Task) (l : list Task)
  : list Task :=
  match l with
  | [] => [x]
  | y :: l' =>
      if cmp x y <=? 0 then x :: y :: l' else y :: insert_sorted cmp x l'
  end.

Fixpoint sort (cmp : Task -> Task -> Z) (l : list Task) : list Task :=
  match l with
  | [] => []
  | x :: l' => insert_sorted cmp x (sort cmp l')
  end.

Definition getAllTasks `{host : JsHost} (ok : bool) (db : Store)
  : Result (list Task) * Store :=
  if ok then (Resolve (sort compareFn (getAll db)), db)
  else (Reject RequestError, db).

Record TaskData := mkTaskData {
  td_title : string;
  td_description : option string;
  td_due_date : option string;
  td_due_time : option string
}.

(** [x || ''] *)
Definition or_empty (x : option string) : string :=
  match x with
  | Some s => if truthy s then s else ""
  | None => ""
  end.

(** [x || null] *)
Definition or_null (x : option string) : option string :=
  match x with
  | Some s => if truthy s then Some s else None
  | None => None
  end.

(** What [addTask] reads from its environment: [Date.now()], the base-36
    suffix drawn from [Math.random()], and [new Date().toISOString()]. *)
Record Clock := mkClock {
  date_now : Z;
  random36 : string;
  iso_now : string
}.

Definition addTask (ok : bool) (env : Clock) (taskData : TaskData)
    (db : Store) : Result Task * Store :=
  if ok then
    let taskId := "task_" +:+ pretty (date_now env) +:+ "_" +:+ random36 env in
    let now := iso_now env in
    let task :=
      {| id := taskId;
         title := td_title taskData;
         description := or_empty (td_description taskData);
         due_date := or_null (td_due_date taskData);
         due_time := or_null (td_due_time taskData);
         completed := false;
         reminder_shown := false;
         created_at := now;
         updated_at := now |} in
    (* store.add(task) rejects when the key is taken *)
    match db !! taskId with
    | Some _ => (Reject ConstraintError, db)
    | None => (Resolve task, <[taskId := task]> db)
    end
  else (Reject RequestError, db).

Definition updateTask (ok : bool) (now : string) (taskId : string)
    (updates : PartialTask) (db : Store) : Result Task * Store :=
  if ok then
    match db !! taskId with
    | None => (Reject (JsError "Task not found"), db)
    | Some existingTask =>
        let merged := spread existingTask updates in
        let updatedTask :=
          {| id := id existingTask;
             title := title merged;
             description := description merged;
             due_date := due_date merged;
             due_time := due_time merged;
             completed := completed merged;
             reminder_shown := reminder_shown merged;
             created_at := created_at merged;
             updated_at := now |} in
        (* store.put(updatedTask) *)
        (Resolve updatedTask, <[id existingTask := updatedTask]> db)
    end
  else (Reject RequestError, db).

(** [store.delete(id)] succeeds whether or not the key is there. *)
Definition deleteTask (ok : bool) (taskId : string) (db : Store)
  : Result unit * Store :=
  if ok then (Resolve tt, delete taskId db) else (Reject RequestError, db).

Definition clearAllTasks (ok : bool) (db : Store) : Result unit * Store :=
  if ok then (Resolve tt, ∅) else (Reject RequestError, db).

End database.

(** ** [useTasks]

    The React state [tasks] next to the store it mirrors. Each operation
    returns the [success] field of its result and the state it leaves (the
    [error] message, shown to the user only, is left out). *)

Module useTasks.

Record State := mkState {
  db : database.Store;
  tasks : list Task
}.

Definition fetchTasks `{host : JsHost} (ok : bool) (st : State) : State :=
  match database.getAllTasks ok (db st) with
  | (Resolve data, db') => {| db := db'; tasks := data |}
  | (Reject _, db') => {| db := db'; tasks := tasks st |}
  end.

Definition addTask (ok : bool) (env : database.Clock)
    (taskData : database.TaskData) (st : State) : bool * State :=
  match database.addTask ok env taskData (db st) with
  | (Resolve data, db') => (true, {| db := db'; tasks := data :: tasks st |})
  | (Reject _, db') => (false, {| db := db'; tasks := tasks st |})
  end.

Definition updateTask (ok : bool) (now : string) (taskId : string)
    (updates : PartialTask) (st : State) : bool * State :=
  match database.updateTask ok now taskId updates (db st) with
  | (Resolve data, db') =>
      (true,
       {| db := db';
          tasks := (λ task, if decide (id task = taskId) then data else task)
                     <$> tasks st |})
  | (Reject _, db') => (false, {| db := db'; tasks := tasks st |})
  end.

Definition deleteTask (ok : bool) (taskId : string) (st : State)
  : bool * State :=
  match database.deleteTask ok taskId (db st) with
  | (Resolve _, db') =>
      (true,
       {| db := db';
          tasks := filter (λ task, id task ≠ taskId) (tasks st) |})
  | (Reject _, db') => (false, {| db := db'; tasks := tasks st |})
  end.

Definition toggleComplete (ok : bool) (now : string) (taskId : string)
    (completed : bool) (st : State) : bool * State :=
  updateTask ok now taskId
    (mkPartial None None None None None (Some completed) None None None) st.

End useTasks.

(** ** [useReminders]: the reminder scanner *)

Module useReminders.

(** The two refs of the hook: the handled set and the time of the last
    evaluation. *)
Record Refs := mkRefs {
  checkedTasksRef : gset string;
  lastCheckTimeRef : Z
}.

Definition initialRefs : Refs := mkRefs ∅ 0.

(** The calls the scanner makes on its two callback props, in order. Both
    callbacks return to the scanner: [onReminderTriggered] starts the sound
    and the alerts, [updateTask] returns a promise the scanner drops, so the
    outcome of the write reaches neither the refs nor the later calls. *)
Inductive Call :=
  | onReminderTriggered (task : Task)
  | updateTask (taskId : string) (updates : PartialTask).

#[global] Instance Call_eq_dec : EqDecision Call.
Proof. solve_decision. Defined.

(** The task a call is about. *)
Definition call_id (c : Call) : string :=
  match c with
  | onReminderTriggered task => id task
  | updateTask taskId _ => taskId
  end.

(** [{ reminder_shown: true }] *)
Definition shown : PartialTask :=
  mkPartial None None None None None None (Some true) None None.

(** Lines 38-42: the due date and time read as a local timestamp. An
    element missing from a split is [undefined], which makes the date
    invalid. *)
Definition dueTimeMs `{host : JsHost} (due_date due_time : string) : option Z :=
  match Number <$> split "-" due_date, Number <$> split ":" due_time with
  | year :: month :: day :: _, hours :: minutes :: _ =>
      DateLocal year (minus_one month) day hours minutes
  | _, _ => None
  end.

(** The body of [tasks.forEach]: the handled set it leaves and the calls
    it makes. *)
Definition visit `{host : JsHost} (currentTime : Z) (checked : gset string)
    (task : Task) : gset string * list Call :=
  match due_date task, due_time task with
  | Some date, Some time =>
      if completed task || reminder_shown task
         || negb (truthy date) || negb (truthy time)
      then (checked, [])
      else if bool_decide (id task ∈ checked) then (checked, [])
      else
        match dueTimeMs date time with
        | Some dueTimeMs =>
            let timeDiffMs := Z.abs (dueTimeMs - currentTime) in
            if (timeDiffMs <=? 60000) && (dueTimeMs <=? currentTime)
            then ({[id task]} ∪ checked,
                  [onReminderTriggered task; updateTask (id task) shown])
            else (checked, [])
        | None => (checked, [])
        end
  | _, _ => (checked, [])
  end.

Fixpoint forEach `{host : JsHost} (currentTime : Z) (checked : gset string)
    (tasks : list Task) : gset string * list Call :=
  match tasks with
  | [] => (checked, [])
  | task :: rest =>
      let '(checked1, calls1) := visit currentTime checked task in
      let '(checked2, calls2) := forEach currentTime checked1 rest in
      (checked2, calls1 ++ calls2)
  end.

Definition checkReminders `{host : JsHost} (refs : Refs) (tasks : list Task)
    (currentTime : Z) : Refs * list Call :=
  if currentTime - lastCheckTimeRef refs <? 1000 then (refs, [])
  else
    let '(checked, calls) :=
      forEach currentTime (checkedTasksRef refs) tasks in
    ({| checkedTasksRef := checked; lastCheckTimeRef := currentTime |},
     calls).

(** The second effect: forget the completed tasks. *)
Definition resetCompleted (refs : Refs) (tasks : list Task) : Refs :=
  let completedTaskIds := id <$> filter (λ task, completed task = true) tasks in
  {| checkedTasksRef :=
       foldl (λ checked taskId, checked ∖ {[taskId]})
             (checkedTasksRef refs) completedTaskIds;
     lastCheckTimeRef := lastCheckTimeRef refs |}.

(** *** The mounted hook

    [tasks] is the list the current [checkReminders] closure holds. When
    the list changes, React runs the first effect (the initial check) and
    then the second; [Tick] is any other invocation of [checkReminders]
    (the interval's, or the initial check of a re-run for new callbacks). *)

Record Hook := mkHook {
  refs : Refs;
  tasks : list Task
}.

Inductive Event :=
  | TasksChanged (tasks : list Task) (now : Z)
  | Tick (now : Z).

Definition step `{host : JsHost} (h : Hook) (ev : Event) : Hook * list Call :=
  match ev with
  | TasksChanged tasks now =>
      let '(refs1, calls) := checkReminders (refs h) tasks now in
      ({| refs := resetCompleted refs1 tasks; tasks := tasks |}, calls)
  | Tick now =>
      let '(refs1, calls) := checkReminders (refs h) (tasks h) now in
      ({| refs := refs1; tasks := tasks h |}, calls)
  end.

Fixpoint run `{host : JsHost} (h : Hook) (evs : list Event) : Hook * list Call :=
  match evs with
  | [] => (h, [])
  | ev :: evs' =>
      let '(h1, calls1) := step h ev in
      let '(h2, calls2) := run h1 evs' in
      (h2, calls1 ++ calls2)
  end.

(** The lists the hook is given by a sequence of events. *)
Definition snapshots (evs : list Event) : list (list Task) :=
  omap (λ ev, match ev with
              | TasksChanged tasks _ => Some tasks
              | Tick _ => None
              end) evs.

(** The list a step scans (and the hook holds after it), and its time. *)
Definition scanned (h : Hook) (ev : Event) : list Task :=
  match ev with
  | TasksChanged tasks _ => tasks
  | Tick _ => tasks h
  end.

Definition event_time (ev : Event) : Z :=
  match ev with TasksChanged _ now => now | Tick now => now end.

(** The calls made for one selected task. *)
Definition deliver (task : Task) : list Call :=
  [onReminderTriggered task; updateTask (id task) shown].

(** A change of the task list at the first of [times], then the
    interval's invocations at the others. *)
Definition rerender (tasks : list Task) (times : list Z) : list Event :=
  match times with
  | [] => []
  | now :: later => TasksChanged tasks now :: (Tick <$> later)
  end.

End useReminders.

(** ** A host for the examples

    A host whose local time is UTC. Its [Number] reads strings of decimal
    digits (all that the examples below use) and takes anything else for
    [NaN]; its parsing [Date] reads the [toISOString] format. *)

Module utc.

Definition digit (c : ascii) : option Z :=
  let n := Z.of_nat (nat_of_ascii c) in
  if (48 <=? n) && (n <=? 57) then Some (n - 48) else None.

Fixpoint digits (acc : Z) (s : string) : option Z :=
  match s with
  | EmptyString => Some acc
  | String c rest => d ← digit c; digits (10 * acc + d) rest
  end.

Definition number (s : string) : option Z := digits 0 s.

(** Day number of a civil date, [m] in 1..12. *)
Definition daysFromCivil (y m d : Z) : Z :=
  let y' := if m <=? 2 then y - 1 else y in
  let era := y' / 400 in
  let yoe := y' - era * 400 in
  let doy := (153 * (if m <=? 2 then m + 9 else m - 3) + 2) / 5 + d - 1 in
  let doe := yoe * 365 + yoe / 4 - yoe / 100 + doy in
  era * 146097 + doe - 719468.

(** [MakeDay], with a zero-based month that may overflow. *)
Definition makeDay (year month date : Z) : Z :=
  daysFromCivil (year + month / 12) (month mod 12 + 1) 1 + date - 1.

Definition timeClip (t : Z) : option Z :=
  if Z.abs t <=? 8640000000000000 then Some t else None.

(** Years 0..99 of the [Date] constructor mean 1900..1999. *)
Definition fullYear (y : Z) : Z :=
  if (0 <=? y) && (y <=? 99) then 1900 + y else y.

Definition dateLocal (year month day hours minutes : option Z) : option Z :=
  y ← year; m ← month; d ← day; h ← hours; mi ← minutes;
  timeClip (makeDay (fullYear y) m d * 86400000 + h * 3600000 + mi * 60000).

Definition dateParse (s : string) : option Z :=
  match split "T" s with
  | [date; time] =>
      match split "-" date, split "Z" time with
      | [y; m; d], [hms; EmptyString] =>
          match split ":" hms with
          | [h; mi; sec] =>
              match split "." sec with
              | [ss; ms] =>
                  y ← number y; m ← number m; d ← number d;
                  h ← number h; mi ← number mi;
                  ss ← number ss; ms ← number ms;
                  timeClip (makeDay y (m - 1) d * 86400000 + h * 3600000
                            + mi * 60000 + ss * 1000 + ms)
              | _ => None
              end
          | _ => None
          end
      | _, _ => None
      end
  | _ => None
  end.

Definition host : JsHost :=
  {| JsNum := option Z;
     Number := number;
     minus_one := fmap (λ n, n - 1);
     DateLocal := dateLocal;
     DateParse := dateParse |}.

End utc.

(** ** The eligibility predicate, in the words of the specification *)

(** The combined due timestamp of a task, when it has one. *)
Definition dueTimestamp `{host : JsHost} (task : Task) : option Z :=
  match due_date task, due_time task with
  | Some date, Some time => useReminders.dueTimeMs date time
  | _, _ => None
  end.

(** Both due fields present, not completed, no reminder shown yet, due at or
    before [now] and no more than the lateness window (60 seconds) ago. *)
Definition eligible `{host : JsHost} (now : Z) (task : Task) : Prop :=
  is_Some (due_date task) ∧ is_Some (due_time task) ∧
  completed task = false ∧ reminder_shown task = false ∧
  ∃ T, dueTimestamp task = Some T ∧ T <= now ∧ now - T <= 60000.

(** A task is selected by a scan when the scan notifies it. *)
Definition selected (calls : list useReminders.Call) (task : Task) : Prop :=
  useReminders.onReminderTriggered task ∈ calls.

(** [a] was created no earlier than [b]: the order
    "newest created first" of two neighbours. *)
Definition newest_first `{host : JsHost} (a b : Task) : Prop :=
  ∃ ta tb, DateParse (created_at a) = Some ta ∧
           DateParse (created_at b) = Some tb ∧ tb <= ta.

(** The [created_at] of a task reads as a date. *)
Definition valid `{host : JsHost} (task : Task) : Prop :=
  is_Some (DateParse (created_at task)).

(** Every stored [created_at] reads as a date, as those [addTask] writes
    with [toISOString] do. *)
Definition created_at_valid `{host : JsHost} (db : gmap string Task) : Prop :=
  map_Forall (λ _ task, valid task) db.

(** The hook after the list has shown [finished] at [nowC] and the interval
    has fired at the times [idle]. *)
Definition after_completion `{host : JsHost} (h : useReminders.Hook)
    (finished : list Task) (nowC : Z) (idle : list Z) : useReminders.Hook :=
  (useReminders.run h
     (useReminders.TasksChanged finished nowC
      :: (useReminders.Tick <$> idle))).1.

(** The key path of the object store: a record is stored under its id. *)
Definition keyed (db : gmap string Task) : Prop :=
  map_Forall (λ key task, id task = key) db.

(** ** Sample data *)

Definition rent : Task :=
  {| id := "task_1";
     title := "Pay rent";
     description := "";
     due_date := Some "2024-01-01";
     due_time := Some "09:00";
     completed := false;
     reminder_shown := false;
     created_at := "2023-12-31T10:00:00.000Z";
     updated_at := "2023-12-31T10:00:00.000Z" |}.

Definition groceries : Task :=
  {| id := "task_2";
     title := "Buy groceries";
     description := "[HIGH] milk";
     due_date := Some "2024-01-01";
     due_time := Some "09:00";
     completed := false;
     reminder_shown := false;
     created_at := "2023-12-31T12:30:00.000Z";
     updated_at := "2023-12-31T12:30:00.000Z" |}.

Definition rent_reminded : Task := spread rent useReminders.shown.

Definition rent_completed : Task :=
  spread rent (mkPartial None None None None None (Some true) None None None).

(** [rent] after it was completed and marked incomplete again. *)
Definition rent_reopened : Task :=
  spread rent
    (mkPartial None None None None None None None None
       (Some "2024-01-01T09:00:19.000Z")).

(** [n] times one second apart, from [start] on. *)
Definition every_second (start : Z) (n : nat) : list Z :=
  (λ k : nat, start + 1000 * Z.of_nat k) <$> seq 0 n.

Definition two_tasks : gmap string Task :=
  {[ "task_1" := rent; "task_2" := groceries ]}.

(** What [addTask] makes of a request entered at 08:50. *)
Definition bank_clock : database.Clock :=
  database.mkClock 1704099000000 "k3j9x2m1q" "2024-01-01T08:50:00.000Z".

Definition bank_data : database.TaskData :=
  database.mkTaskData "Call the bank" None (Some "2024-01-02") (Some "").

Definition bank : Task :=
  {| id := "task_1704099000000_k3j9x2m1q";
     title := "Call the bank";
     description := "";
     due_date := Some "2024-01-02";
     due_time := None;
     completed := false;
     reminder_shown := false;
     created_at := "2024-01-01T08:50:00.000Z";
     updated_at := "2024-01-01T08:50:00.000Z" |}.

Definition three_tasks : gmap string Task :=
  <[ "task_1704099000000_k3j9x2m1q" := bank ]> two_tasks.

(** An update that names a [created_at] no [Date] reads, and what it makes
    of [groceries] in [two_tasks]. *)
Definition redate : PartialTask :=
  mkPartial None None None None None None None (Some "yesterday") None.

Definition groceries_redated : Task :=
  {| id := "task_2";
     title := "Buy groceries";
     description := "[HIGH] milk";
     due_date := Some "2024-01-01";
     due_time := Some "09:00";
     completed := false;
     reminder_shown := false;
     created_at := "yesterday";
     updated_at := "2024-01-02T08:00:00.000Z" |}.

Definition redated_tasks : gmap string Task :=
  {[ "task_1" := rent; "task_2" := groceries_redated ]}.

(** 2024-01-01T09:00:00Z *)
Definition nine : Z := 1704099600000.

(** ** The app's actions on the task state

    What the components do to the state of [useTasks]: the fetch on mount,
    the modal's [addTask], [updateTask] (the scanner calls it with
    [{ reminder_shown: true }]), the list's [deleteTask] and
    [toggleComplete]. Each action comes with the [ok] of its store call. *)

Inductive Action :=
  | Fetch
  | Add (env : database.Clock) (taskData : database.TaskData)
  | Update (now : string) (taskId : string) (updates : PartialTask)
  | Delete (taskId : string)
  | Toggle (now : string) (taskId : string) (completed : bool).

Definition act `{host : JsHost} (st : useTasks.State) (a : bool * Action)
  : useTasks.State :=
  match a with
  | (ok, Fetch) => useTasks.fetchTasks ok st
  | (ok, Add env taskData) => (useTasks.addTask ok env taskData st).2
  | (ok, Update now taskId updates) =>
      (useTasks.updateTask ok now taskId updates st).2
  | (ok, Delete taskId) => (useTasks.deleteTask ok taskId st).2
  | (ok, Toggle now taskId completed) =>
      (useTasks.toggleComplete ok now taskId completed st).2
  end.

Definition acts `{host : JsHost} (st : useTasks.State)
    (actions : list (bool * Action)) : useTasks.State :=
  foldl act st actions.

(** The state of an instance of [useTasks] when it mounts, before its first
    fetch: the object store as earlier sessions left it (IndexedDB persists)
    and the empty list of [useState<Task[]>([])]. *)
Definition initialState (persisted : database.Store) : useTasks.State :=
  useTasks.mkState persisted [].

(** What follows the fetch on mount in a session: a task is added, a later
    fetch fails, the new task is completed, the first task is deleted, and a
    last store call fails. *)
Definition session : list (bool * Action) :=
  [ (true, Add bank_clock bank_data);
    (false, Fetch);
    (true, Toggle "2024-01-01T09:10:00.000Z" "task_1704099000000_k3j9x2m1q"
             true);
    (true, Delete "task_1");
    (false, Delete "task_2") ].

(** The list holds the records of the store, each once. *)
Definition in_sync (st : useTasks.State) : Prop :=
  useTasks.tasks st ≡ₚ database.getAll (useTasks.db st).

(** The reminder of [taskId] is acknowledged: the stored record and every
    task of that id in the list have [reminder_shown] set. *)
Definition acknowledged (taskId : string) (st : useTasks.State) : Prop :=
  (∃ task, useTasks.db st !! taskId = Some task ∧ reminder_shown task = true) ∧
  ∀ task, task ∈ useTasks.tasks st → id task = taskId →
          reminder_shown task = true.

(** An action that neither deletes [taskId] nor clears a [reminder_shown]. *)
Definition keeps_acknowledged (taskId : string) (a : bool * Action) : Prop :=
  match a.2 with
  | Delete taskId' => taskId' ≠ taskId
  | Update _ _ updates => p_reminder_shown updates ≠ Some false
  | _ => True
  end.

(** The tasks a sequence of calls notifies. *)
Definition notifications (calls : list useReminders.Call) : list Task :=
  omap (λ c, match c with
             | useReminders.onReminderTriggered task => Some task
             | useReminders.updateTask _ _ => None
             end) calls.

(** How many times a character occurs in a string. *)
Fixpoint occurrences (c : ascii) (s : string) : nat :=
  match s with
  | EmptyString => 0
  | String c' rest =>
      ((if Ascii.eqb c' c then 1 else 0) + occurrences c rest)%nat
  end.

(** What keeps the list newest first under an action: a fetch reads stored
    [created_at] strings that are dates, an addition happens no earlier than
    the tasks of the list were created (the clock did not run backwards), an
    update leaves [created_at] alone. *)
Definition keeps_order `{host : JsHost} (st : useTasks.State)
    (a : bool * Action) : Prop :=
  match a.2 with
  | Fetch => created_at_valid (useTasks.db st)
  | Add env _ =>
      ∃ tn, DateParse (database.iso_now env) = Some tn ∧
            ∀ task, task ∈ useTasks.tasks st →
                    ∃ tt, DateParse (created_at task) = Some tt ∧ tt <= tn
  | Update _ _ updates => p_created_at updates = None
  | Delete _ => True
  | Toggle _ _ _ => True
  end.

(** A task whose due fields cannot be read as a date and a time: one of them
    is missing, the date has fewer than two hyphens (no month or no day), or
    the time has no colon (no minutes). The empty string is such a field. *)
Definition due_unreadable (task : Task) : Prop :=
  match due_date task, due_time task with
  | Some date, Some time =>
      (occurrences "-" date < 2)%nat ∨ occurrences ":" time = 0%nat
  | _, _ => True
  end.

(** How many notifications a sequence of calls holds for tasks of an id. *)
Definition notified_times (taskId : string) (calls : list useReminders.Call)
  : nat :=
  length (filter (λ task, id task = taskId) (notifications calls)).

(** ** Strings of the components

    Strings are sequences of code units. What the components ask of the host
    about them is an interface too: which code units [trim] strips (WhiteSpace
    and LineTerminator), [toLowerCase], and [parseInt] ([None] for [NaN]). *)

Class JsText := {
  isWhiteSpace : ascii -> bool;
  toLowerCase : string -> string;
  parseInt : string -> option Z
}.

Fixpoint trimStart `{text : JsText} (s : string) : string :=
  match s with
  | EmptyString => EmptyString
  | String c rest => if isWhiteSpace c then trimStart rest else s
  end.

Fixpoint trimEnd `{text : JsText} (s : string) : string :=
  match s with
  | EmptyString => EmptyString
  | String c rest =>
      match trimEnd rest with
      | EmptyString => if isWhiteSpace c then EmptyString else String c EmptyString
      | kept => String c kept
      end
  end.

(** [s.trim()] *)
Definition trim `{text : JsText} (s : string) : string :=
  trimEnd (trimStart s).

(** [s.startsWith(p)] *)
Definition startsWith (s p : string) : bool := String.prefix p s.

(** [s.includes(q)] *)
Fixpoint includes (s q : string) : bool :=
  String.prefix q s
  || match s with
     | EmptyString => false
     | String _ rest => includes rest q
     end.

(** [s.padStart(2, '0')] *)
Definition padStart2 (s : string) : string :=
  match s with
  | EmptyString => "00"
  | String c EmptyString => String "0" s
  | _ => s
  end.

(** [x || undefined] on a string *)
Definition or_undefined (s : string) : option string :=
  if truthy s then Some s else None.

(** ** [App]: the views and their counts *)

Module App.

Inductive ViewType := Inbox | Today | Upcoming | Completed.

(** [task.due_date === todayStr && !task.completed] *)
Definition due_today (todayStr : string) (task : Task) : bool :=
  bool_decide (due_date task = Some todayStr) && negb (completed task).

(** [task.due_date && task.due_date > todayStr && !task.completed] *)
Definition due_later (todayStr : string) (task : Task) : bool :=
  match due_date task with
  | Some date => truthy date && String.ltb todayStr date && negb (completed task)
  | None => false
  end.

(** [todayStr] is [new Date().toISOString().split('T')[0]]. *)
Definition filteredTasks (todayStr : string) (currentView : ViewType)
    (tasks : list Task) : list Task :=
  match currentView with
  | Today => filter (λ task, due_today todayStr task = true) tasks
  | Upcoming => filter (λ task, due_later todayStr task = true) tasks
  | Completed => filter (λ task, completed task = true) tasks
  | Inbox => filter (λ task, completed task = false) tasks
  end.

Record TaskCounts := mkCounts {
  n_inbox : nat;
  n_today : nat;
  n_upcoming : nat;
  n_completed : nat
}.

Definition taskCounts (todayStr : string) (tasks : list Task) : TaskCounts :=
  {| n_inbox := length (filter (λ task, completed task = false) tasks);
     n_today := length (filter (λ task, due_today todayStr task = true) tasks);
     n_upcoming :=
       length (filter (λ task, due_later todayStr task = true) tasks);
     n_completed := length (filter (λ task, completed task = true) tasks) |}.

(** The count the sidebar shows next to a view. *)
Definition count_of (counts : TaskCounts) (view : ViewType) : nat :=
  match view with
  | Inbox => n_inbox counts
  | Today => n_today counts
  | Upcoming => n_upcoming counts
  | Completed => n_completed counts
  end.

End App.

(** ** [TaskList]: priorities and filters *)

Module TaskList.

Inductive Priority := HIGH | MEDIUM | LOW.

#[global] Instance Priority_eq_dec : EqDecision Priority.
Proof. solve_decision. Defined.

Definition extractPriority (task : Task) : option Priority :=
  if startsWith (description task) "[HIGH]" then Some HIGH
  else if startsWith (description task) "[MEDIUM]" then Some MEDIUM
  else if startsWith (description task) "[LOW]" then Some LOW
  else None.

(** What [getLocalDateString] reads of a [Date]. *)
Record LocalDate := mkLocalDate {
  getFullYear : Z;
  getMonth : Z;
  getDate : Z
}.

Definition getLocalDateString (date : LocalDate) : string :=
  let year := getFullYear date in
  let month := padStart2 (pretty (getMonth date + 1)) in
  let day := padStart2 (pretty (getDate date)) in
  pretty year +:+ "-" +:+ month +:+ "-" +:+ day.

Definition highPriorityTasks (tasks : list Task) : list Task :=
  filter (λ t, completed t = false ∧ extractPriority t = Some HIGH) tasks.

Inductive FilterType := All | Pending | Completed.

(** The search predicate: the title or the description holds the query,
    letter case aside. *)
Definition matches `{text : JsText} (q : string) (t : Task) : bool :=
  includes (toLowerCase (title t)) q || includes (toLowerCase (description t)) q.

Definition filteredTasks `{text : JsText} (filter_ : FilterType)
    (searchQuery : string) (selectedDate : option LocalDate)
    (tasks : list Task) : list Task :=
  let result := tasks in
  let result :=
    match filter_ with
    | Pending => filter (λ t, completed t = false) result
    | _ => result
    end in
  let result :=
    match filter_ with
    | Completed => filter (λ t, completed t = true) result
    | _ => result
    end in
  let result :=
    if truthy (trim searchQuery) then
      let q := toLowerCase searchQuery in
      filter (λ t, matches q t = true) result
    else result in
  let result :=
    match selectedDate with
    | Some date =>
        let dateStr := getLocalDateString date in
        filter (λ t, due_date t = Some dateStr) result
    | None => result
    end in
  result.

End TaskList.

(** ** [AddTaskModal]: the submitted task and the suggestions *)

Module AddTaskModal.

Inductive Priority := low | medium | high.

(** [priority === 'low' ? '' : `[${priority.toUpperCase()}] `] *)
Definition priorityPrefix (priority : Priority) : string :=
  match priority with
  | low => ""
  | medium => "[MEDIUM] "
  | high => "[HIGH] "
  end.

(** What [handleSubmit] passes to [onAdd]; [None] when it returns before. *)
Definition handleSubmit `{text : JsText} (title description dueDate dueTime : string)
    (priority : Priority) : option database.TaskData :=
  if negb (truthy (trim title)) then None
  else
    let finalDescription :=
      or_undefined
        (trim (priorityPrefix priority
               +:+ (if truthy (trim description) then trim description else ""))) in
    Some {| database.td_title := trim title;
            database.td_description := finalDescription;
            database.td_due_date := or_undefined dueDate;
            database.td_due_time := or_undefined dueTime |}.

Definition suggestions `{text : JsText} (searchTerm : string)
    (tasks : list Task) : list Task :=
  if negb (truthy (trim searchTerm)) then []
  else
    let q := toLowerCase searchTerm in
    take 6 (filter (λ t, includes (toLowerCase (title t)) q = true) tasks).

End AddTaskModal.

(** ** [TaskItem]: the time shown *)

Module TaskItem.

Definition formatTime `{text : JsText} (timeString : option string)
  : option string :=
  match timeString with
  | None => None
  | Some timeString =>
      if negb (truthy timeString) then None
      else
        let parts := split ":" timeString in
        let hours := default "" (head parts) in
        (* a missing element is [undefined], which the template prints *)
        let minutes := default "undefined" (parts !! 1%nat) in
        let hour := parseInt hours in
        let ampm :=
          match hour with
          | Some h => if 12 <=? h then "PM" else "AM"
          | None => "AM"
          end in
        let displayHour :=
          match hour with
          | Some h => if Z.rem h 12 =? 0 then 12 else Z.rem h 12
          | None => 12
          end in
        Some (pretty displayHour +:+ ":" +:+ minutes +:+ " " +:+ ampm)
  end.

End TaskItem.

(** ** [DatePickerCalendar]: the tasks per day *)

Module DatePickerCalendar.

(** [countMap] is made by [{}]: next to the properties the loop gives it, it
    answers to the names [Object.prototype] defines. *)
Definition prototype_names : list string :=
  [ "constructor"; "__defineGetter__"; "__defineSetter__"; "hasOwnProperty";
    "__lookupGetter__"; "__lookupSetter__"; "isPrototypeOf";
    "propertyIsEnumerable"; "toString"; "valueOf"; "__proto__";
    "toLocaleString" ].

(** What a lookup in [countMap] gives: a number, or, under a name of
    [Object.prototype], a value that is no number: the inherited function or
    object, or the string that [+ 1] has made of it. *)
Inductive Count :=
  | ANumber (n : nat)
  | NotANumber.

(** The properties the loop has given [countMap]. *)
Abbreviation CountMap := (gmap string Count).

(** [countMap[key]]: the object's own property, or else the one inherited
    from [Object.prototype]; [undefined] is [None]. *)
Definition get (countMap : CountMap) (key : string) : option Count :=
  match countMap !! key with
  | Some value => Some value
  | None =>
      if bool_decide (key ∈ prototype_names) then Some NotANumber else None
  end.

(** [value || 0]: a function, an object and a string made by [+ 1] are
    truthy. *)
Definition or_zero (value : option Count) : Count :=
  match value with
  | Some (ANumber n) => ANumber (if (n =? 0)%nat then 0%nat else n)
  | Some NotANumber => NotANumber
  | None => ANumber 0
  end.

(** [value + 1]: the next number, or the string [value] reads as, followed
    by the character 1. *)
Definition plus_one (value : Count) : Count :=
  match value with
  | ANumber n => ANumber (n + 1)
  | NotANumber => NotANumber
  end.

(** [countMap[key] = value], for a [value] that is a number or a string: the
    property becomes the object's own, except under [__proto__], where the
    inherited setter ignores a value that is no object. *)
Definition assign (key : string) (value : Count) (countMap : CountMap)
  : CountMap :=
  if bool_decide (key = "__proto__") then countMap
  else <[key := value]> countMap.

(** [countMap[task.due_date] = (countMap[task.due_date] || 0) + 1] for the
    tasks that have a due date. *)
Definition count_task (countMap : CountMap) (task : Task) : CountMap :=
  match due_date task with
  | Some date =>
      if truthy date
      then assign date (plus_one (or_zero (get countMap date))) countMap
      else countMap
  | None => countMap
  end.

Definition taskCountByDate (tasks : list Task) : CountMap :=
  foldl count_task ∅ tasks.

(** [taskCountByDate[dateStr] || 0], what [getTaskCount] returns for the
    date string of a day. *)
Definition countOn (tasks : list Task) (dateStr : string) : Count :=
  or_zero (get (taskCountByDate tasks) dateStr).

End DatePickerCalendar.

(** A text host for the examples: the white space of ASCII, the lower case
    of the letters A to Z, and a [parseInt] that reads strings of decimal
    digits. *)
Module ascii_text.

Definition white (c : ascii) : bool :=
  let n := nat_of_ascii c in
  ((9 <=? n) && (n <=? 13) || (n =? 32))%nat.

Definition lower (c : ascii) : ascii :=
  let n := nat_of_ascii c in
  if ((65 <=? n) && (n <=? 90))%nat then ascii_of_nat (n + 32) else c.

Fixpoint lower_case (s : string) : string :=
  match s with
  | EmptyString => EmptyString
  | String c rest => String (lower c) (lower_case rest)
  end.

Definition parse_int (s : string) : option Z :=
  match s with
  | EmptyString => None
  | _ => utc.digits 0 s
  end.

Definition text : JsText :=
  {| isWhiteSpace := white; toLowerCase := lower_case; parseInt := parse_int |}.

End ascii_text.

(** ** Dates of the calendar *)

(** A date of the years 1000 to 9999, as the calendar's grid builds them. *)
Definition calendar_date (date : TaskList.LocalDate) : Prop :=
  1000 <= TaskList.getFullYear date <= 9999 ∧
  0 <= TaskList.getMonth date <= 11 ∧
  1 <= TaskList.getDate date <= 31.

(** [a] is a day before [b]. *)
Definition before (a b : TaskList.LocalDate) : Prop :=
  TaskList.getFullYear a < TaskList.getFullYear b ∨
  (TaskList.getFullYear a = TaskList.getFullYear b ∧
   (TaskList.getMonth a < TaskList.getMonth b ∨
    (TaskList.getMonth a = TaskList.getMonth b ∧
     TaskList.getDate a < TaskList.getDate b))).

(** The day cells of [DatePickerCalendar]: [day] is the number of the cell
    (0 standing for an empty cell), [currentMonth] the month shown. *)
Module DayCell.

(** [new Date(currentMonth.getFullYear(), currentMonth.getMonth(), day)],
    for a day of the month shown. *)
Definition dateOf (currentMonth : TaskList.LocalDate) (day : Z)
  : TaskList.LocalDate :=
  TaskList.mkLocalDate (TaskList.getFullYear currentMonth)
    (TaskList.getMonth currentMonth) day.


Definition isToday (currentMonth today : TaskList.LocalDate) (day : Z) : bool :=
  if day =? 0 then false
  else
    let date := dateOf currentMonth day in
    let todayStr := TaskList.getLocalDateString today in
    let dateStr := TaskList.getLocalDateString date in
    bool_decide (dateStr = todayStr).

Definition isPast (currentMonth today : TaskList.LocalDate) (day : Z) : bool :=
  if day =? 0 then false
  else
    let date := dateOf currentMonth day in
    let dateStr := TaskList.getLocalDateString date in
    let todayStr := TaskList.getLocalDateString today in
    String.ltb dateStr todayStr.

End DayCell.
(** The day as one number, year first. *)
Definition day_key (date : TaskList.LocalDate) : Z :=
  TaskList.getFullYear date * 10000 + (TaskList.getMonth date + 1) * 100
  + TaskList.getDate date.

(** Closing a decidable goal by evaluation. *)
Ltac by_decide :=
  match goal with
  | |- ?P => apply (bool_decide_unpack P); vm_compute; exact I
  end.

(** * Properties *)

Import useReminders.

(** ** The host of the examples *)

Example utc_due_2024 :
  dueTimeMs (host := utc.host) "2024-01-01" "09:00" = Some nine.
Proof. reflexivity. Qed.

Example utc_parse_2024 :
  DateParse (JsHost := utc.host) "2024-01-01T09:00:05.250Z"
  = Some (nine + 5250).
Proof. reflexivity. Qed.

(** ** One visit of the scanner *)

Section Visit.
Context `{host : JsHost}.

Lemma split_empty sep : split sep "" = [""].
Proof. reflexivity. Qed.

(** An empty due field has no timestamp. *)
Lemma dueTimeMs_falsy date time :
  truthy date = false ∨ truthy time = false → dueTimeMs date time = None.
Proof.
  unfold dueTimeMs. intros [Hd | Ht].
  - destruct date; [|discriminate]. reflexivity.
  - destruct time; [|discriminate]. simpl.
    by destruct (Number <$> split "-" date) as [|? [|? [|? ?]]].
Qed.

Lemma window_iff (T now : Z) :
  (Z.abs (T - now) <=? 60000) && (T <=? now) = true
  ↔ T <= now ∧ now - T <= 60000.
Proof. rewrite andb_true_iff, !Z.leb_le. lia. Qed.

Lemma eligible_dec now task : Decision (eligible now task).
Proof.
  unfold eligible.
  destruct (dueTimestamp task) as [T|] eqn:HT.
  - destruct (decide (is_Some (due_date task) ∧ is_Some (due_time task) ∧
                      completed task = false ∧ reminder_shown task = false ∧
                      T <= now ∧ now - T <= 60000)) as [Hy | Hn].
    + left. destruct Hy as (? & ? & ? & ? & ? & ?). eauto 10.
    + right. intros (? & ? & ? & ? & T' & [= <-] & ? & ?). tauto.
  - right. intros (? & ? & ? & ? & T' & [=] & _).
Qed.

Lemma visit_selected now checked task :
  eligible now task → id task ∉ checked →
  visit now checked task
  = ({[id task]} ∪ checked,
     [onReminderTriggered task; updateTask (id task) shown]).
Proof.
  intros ([d Hd] & [t Ht] & Hc & Hs & T & HT & Hle & Hwin) Hnot.
  unfold visit, dueTimestamp in *. rewrite Hd, Ht in *. rewrite Hc, Hs. simpl.
  destruct (truthy d) eqn:Hd'; simpl;
    [|rewrite dueTimeMs_falsy in HT by auto; discriminate].
  destruct (truthy t) eqn:Ht'; simpl;
    [|rewrite dueTimeMs_falsy in HT by auto; discriminate].
  rewrite bool_decide_eq_false_2 by done. rewrite HT.
  by rewrite (proj2 (window_iff T now)).
Qed.

Lemma visit_skipped now checked task :
  ¬ (eligible now task ∧ id task ∉ checked) →
  visit now checked task = (checked, []).
Proof.
  intros Hno. unfold visit.
  destruct (due_date task) as [d|] eqn:Hd; [|done].
  destruct (due_time task) as [t|] eqn:Ht; [|done].
  destruct (completed task) eqn:Hc; [done|].
  destruct (reminder_shown task) eqn:Hs; [done|]. simpl.
  destruct (negb (truthy d) || negb (truthy t)); [done|].
  case_bool_decide; [done|].
  destruct (dueTimeMs d t) as [T|] eqn:HT; [|done]. simpl.
  destruct ((Z.abs (T - now) <=? 60000) && (T <=? now)) eqn:Hw; [|done].
  exfalso. apply Hno. split; [|done].
  apply window_iff in Hw. unfold eligible, dueTimestamp.
  rewrite Hd, Ht. destruct Hw. eauto 10.
Qed.

(** What a visit does, in one equation. *)
Lemma visit_spec now checked task :
  visit now checked task
  = if decide (id task ∈ checked) then (checked, [])
    else if eligible_dec now task
         then ({[id task]} ∪ checked,
               [onReminderTriggered task; updateTask (id task) shown])
         else (checked, []).
Proof.
  destruct (decide _); [apply visit_skipped; tauto|].
  destruct (eligible_dec _ _); [by apply visit_selected|].
  apply visit_skipped; tauto.
Qed.

End Visit.

(** ** One scan of the task list *)

Section Scan.
Context `{host : JsHost}.

Lemma forEach_cons now checked task rest :
  forEach now checked (task :: rest)
  = ((forEach now ((visit now checked task).1) rest).1,
     (visit now checked task).2
     ++ (forEach now ((visit now checked task).1) rest).2).
Proof.
  simpl. destruct (visit now checked task) as [c1 k1]. simpl.
  by destruct (forEach now c1 rest).
Qed.

(** Every call of a scan is made for an eligible task of the list that
    was not handled when the scan began. *)
Lemma forEach_sound now tasks : ∀ checked c,
  c ∈ (forEach now checked tasks).2 →
  ∃ task, task ∈ tasks ∧ eligible now task ∧ (id task ∉ checked) ∧
          c ∈ deliver task.
Proof.
  induction tasks as [|task rest IH]; intros checked c Hc.
  - simpl in Hc. by apply elem_of_nil in Hc.
  - rewrite forEach_cons in Hc. simpl in Hc. rewrite visit_spec in Hc.
    destruct (decide (id task ∈ checked)) as [Hin | Hnin]; simpl in Hc.
    { destruct (IH _ _ Hc) as (t & ? & ? & ? & ?).
      exists t. rewrite elem_of_cons. eauto. }
    destruct (eligible_dec now task) as [He | Hne]; simpl in Hc.
    + rewrite !elem_of_cons in Hc. destruct Hc as [-> | [-> | Hc]].
      * exists task. unfold deliver. rewrite !elem_of_cons. eauto 10.
      * exists task. unfold deliver. rewrite !elem_of_cons. eauto 10.
      * destruct (IH _ _ Hc) as (t & ? & ? & Ht & ?).
        exists t. rewrite elem_of_cons.
        split_and!; [by right | done | | done].
        intros Hi. apply Ht. apply elem_of_union. by right.
    + destruct (IH _ _ Hc) as (t & ? & ? & ? & ?).
      exists t. rewrite elem_of_cons. eauto.
Qed.

(** The calls of a scan are the deliveries of the tasks it selects, one
    after the other. *)
Lemma forEach_shape now tasks : ∀ checked,
  ∃ sel, (forEach now checked tasks).2 = (sel ≫= deliver).
Proof.
  induction tasks as [|task rest IH]; intros checked.
  - by exists [].
  - rewrite forEach_cons. simpl. rewrite visit_spec.
    destruct (decide (id task ∈ checked)); simpl; [apply IH|].
    destruct (eligible_dec now task); simpl; [|apply IH].
    destruct (IH ({[id task]} ∪ checked)) as [sel ->].
    by exists (task :: sel).
Qed.

(** The handled set after a scan: what it was, and the selected ids. *)
Lemma forEach_checked now tasks : ∀ checked i,
  i ∈ (forEach now checked tasks).1
  ↔ i ∈ checked ∨
    ∃ task, selected (forEach now checked tasks).2 task ∧ id task = i.
Proof.
  unfold selected.
  induction tasks as [|task rest IH]; intros checked i.
  - simpl. split; [auto|]. intros [? | (t & Ht & _)]; [done|].
    by apply elem_of_nil in Ht.
  - rewrite forEach_cons. simpl. rewrite visit_spec.
    destruct (decide (id task ∈ checked)); simpl; [apply IH|].
    destruct (eligible_dec now task); simpl; [|apply IH].
    rewrite IH. split.
    + intros [Hi | (t & Ht & <-)].
      * apply elem_of_union in Hi as [Hi | Hi]; [|by left].
        apply elem_of_singleton in Hi as ->. right. exists task.
        split; [apply list_elem_of_here | done].
      * right. exists t. rewrite !elem_of_cons. auto.
    + intros [Hi | (t & Ht & <-)].
      { left. apply elem_of_union. by right. }
      rewrite !elem_of_cons in Ht. destruct Ht as [[= ->] | [[=] | Ht]].
      * left. apply elem_of_union. left. by apply elem_of_singleton.
      * right. eauto.
Qed.

(** With distinct ids, every eligible unhandled task is selected. *)
Lemma forEach_complete now tasks : ∀ checked task,
  NoDup (id <$> tasks) → task ∈ tasks →
  eligible now task → id task ∉ checked →
  selected (forEach now checked tasks).2 task.
Proof.
  unfold selected.
  induction tasks as [|t rest IH]; intros checked task Hnd Hin He Hnot.
  - by apply elem_of_nil in Hin.
  - rewrite fmap_cons in Hnd. apply NoDup_cons in Hnd as [Hfresh Hnd].
    rewrite forEach_cons. simpl. apply elem_of_app.
    apply elem_of_cons in Hin as [-> | Hin].
    + left. rewrite visit_selected by done. apply list_elem_of_here.
    + right. apply IH; try done.
      assert (id t ≠ id task) as Hne.
      { intros Heq. apply Hfresh. rewrite Heq.
        by apply list_elem_of_fmap_2. }
      rewrite visit_spec.
      destruct (decide (id t ∈ checked)); simpl; [done|].
      destruct (eligible_dec now t); simpl; [|done].
      rewrite elem_of_union, elem_of_singleton. intros [? | ?]; congruence.
Qed.

(** *** [checkReminders] *)

Lemma checkReminders_throttled refs tasks now :
  now - lastCheckTimeRef refs < 1000 →
  checkReminders refs tasks now = (refs, []).
Proof.
  intros Hlt. unfold checkReminders.
  by rewrite (proj2 (Z.ltb_lt _ _) Hlt).
Qed.

Lemma checkReminders_evaluates refs tasks now :
  1000 <= now - lastCheckTimeRef refs →
  checkReminders refs tasks now
  = ({| checkedTasksRef := (forEach now (checkedTasksRef refs) tasks).1;
        lastCheckTimeRef := now |},
     (forEach now (checkedTasksRef refs) tasks).2).
Proof.
  intros Hge. unfold checkReminders.
  rewrite (proj2 (Z.ltb_ge _ _) Hge).
  by destruct (forEach now (checkedTasksRef refs) tasks).
Qed.

Lemma checkReminders_cases refs tasks now :
  checkReminders refs tasks now = (refs, []) ∨
  checkReminders refs tasks now
  = ({| checkedTasksRef := (forEach now (checkedTasksRef refs) tasks).1;
        lastCheckTimeRef := now |},
     (forEach now (checkedTasksRef refs) tasks).2).
Proof.
  destruct (Z.lt_ge_cases (now - lastCheckTimeRef refs) 1000).
  - left. by apply checkReminders_throttled.
  - right. by apply checkReminders_evaluates.
Qed.

Lemma checkReminders_sound refs tasks now c :
  c ∈ (checkReminders refs tasks now).2 →
  ∃ task, task ∈ tasks ∧ eligible now task ∧
          (id task ∉ checkedTasksRef refs) ∧ c ∈ deliver task.
Proof.
  destruct (checkReminders_cases refs tasks now) as [-> | ->]; simpl.
  - intros Hc. by apply elem_of_nil in Hc.
  - apply forEach_sound.
Qed.

Lemma checkReminders_shape refs tasks now :
  ∃ sel, (checkReminders refs tasks now).2 = (sel ≫= deliver).
Proof.
  destruct (checkReminders_cases refs tasks now) as [-> | ->]; simpl.
  - by exists [].
  - apply forEach_shape.
Qed.

Lemma checkReminders_checked refs tasks now i :
  i ∈ checkedTasksRef (checkReminders refs tasks now).1
  ↔ i ∈ checkedTasksRef refs ∨
    ∃ task, selected (checkReminders refs tasks now).2 task ∧ id task = i.
Proof.
  destruct (checkReminders_cases refs tasks now) as [-> | ->]; simpl.
  - split; [auto|]. intros [? | (t & Ht & _)]; [done|].
    by apply elem_of_nil in Ht.
  - apply forEach_checked.
Qed.

End Scan.

(** ** Forgetting the completed tasks *)

Lemma foldl_difference (ids : list string) : ∀ (checked : gset string) i,
  i ∈ foldl (λ checked taskId, checked ∖ {[taskId]}) checked ids
  ↔ i ∈ checked ∧ i ∉ ids.
Proof.
  induction ids as [|x ids IH]; intros checked i; simpl.
  - rewrite elem_of_nil. tauto.
  - rewrite IH, elem_of_difference, elem_of_singleton, not_elem_of_cons. tauto.
Qed.

Lemma resetCompleted_checked refs tasks i :
  i ∈ checkedTasksRef (resetCompleted refs tasks)
  ↔ i ∈ checkedTasksRef refs ∧
    ¬ ∃ task, task ∈ tasks ∧ completed task = true ∧ id task = i.
Proof.
  unfold resetCompleted. simpl. rewrite foldl_difference.
  split; intros [Hi Hno]; (split; [done|]).
  - intros (t & Ht & Hc & <-). apply Hno.
    apply list_elem_of_fmap_2. by apply list_elem_of_filter.
  - intros (t & -> & Ht)%list_elem_of_fmap_1.
    apply list_elem_of_filter in Ht as [? ?]. eauto.
Qed.

Lemma resetCompleted_lastCheckTime refs tasks :
  lastCheckTimeRef (resetCompleted refs tasks) = lastCheckTimeRef refs.
Proof. reflexivity. Qed.

(** ** The mounted hook over time *)

Section Lifetime.
Context `{host : JsHost}.

Lemma step_TasksChanged h tasks now :
  step h (TasksChanged tasks now)
  = ({| refs := resetCompleted (checkReminders (refs h) tasks now).1 tasks;
        tasks := tasks |},
     (checkReminders (refs h) tasks now).2).
Proof. simpl. by destruct (checkReminders (refs h) tasks now). Qed.

Lemma step_Tick h now :
  step h (Tick now)
  = ({| refs := (checkReminders (refs h) (useReminders.tasks h) now).1;
        tasks := useReminders.tasks h |},
     (checkReminders (refs h) (useReminders.tasks h) now).2).
Proof.
  simpl. by destruct (checkReminders (refs h) (useReminders.tasks h) now).
Qed.

Lemma run_cons h ev evs :
  run h (ev :: evs)
  = ((run (step h ev).1 evs).1, (step h ev).2 ++ (run (step h ev).1 evs).2).
Proof.
  simpl. destruct (step h ev) as [h1 k1]. simpl. by destruct (run h1 evs).
Qed.

Lemma run_app h evs1 evs2 :
  run h (evs1 ++ evs2)
  = ((run (run h evs1).1 evs2).1,
     (run h evs1).2 ++ (run (run h evs1).1 evs2).2).
Proof.
  revert h. induction evs1 as [|ev evs1 IH]; intros h.
  - simpl. by destruct (run h evs2).
  - rewrite <- app_comm_cons, !run_cons, IH. simpl. by rewrite app_assoc.
Qed.

Lemma step_calls h ev :
  (step h ev).2 = (checkReminders (refs h) (scanned h ev) (event_time ev)).2.
Proof. destruct ev; [by rewrite step_TasksChanged | by rewrite step_Tick]. Qed.

Lemma step_tasks h ev : useReminders.tasks (step h ev).1 = scanned h ev.
Proof. destruct ev; [by rewrite step_TasksChanged | by rewrite step_Tick]. Qed.

Lemma scanned_snapshot h ev evs :
  scanned h ev ∈ useReminders.tasks h :: snapshots (ev :: evs).
Proof.
  destruct ev; simpl; [|apply list_elem_of_here].
  apply list_elem_of_further, list_elem_of_here.
Qed.

Lemma snapshots_step h ev evs tasks :
  tasks ∈ scanned h ev :: snapshots evs →
  tasks ∈ useReminders.tasks h :: snapshots (ev :: evs).
Proof.
  destruct ev; simpl; [by apply list_elem_of_further|done].
Qed.

(** Every call the hook ever makes is made for a task of a list it was
    given, eligible at the time of the call. *)
Lemma run_sound evs : ∀ h c,
  c ∈ (run h evs).2 →
  ∃ tasks task now,
    tasks ∈ useReminders.tasks h :: snapshots evs ∧ task ∈ tasks ∧
    eligible now task ∧ c ∈ deliver task.
Proof.
  induction evs as [|ev evs IH]; intros h c Hc.
  - simpl in Hc. by apply elem_of_nil in Hc.
  - rewrite run_cons in Hc. simpl in Hc. apply elem_of_app in Hc as [Hc | Hc].
    + rewrite step_calls in Hc.
      apply checkReminders_sound in Hc as (t & Ht & He & _ & Hd).
      exists (scanned h ev), t, (event_time ev).
      split_and!; try done. apply scanned_snapshot.
    + apply IH in Hc as (tasks & t & now & Hin & Ht & He & Hd).
      exists tasks, t, now. split_and!; try done.
      apply snapshots_step. by rewrite <- step_tasks.
Qed.

(** The calls of a whole run are deliveries, one after the other. *)
Lemma run_shape evs : ∀ h, ∃ sel, (run h evs).2 = (sel ≫= deliver).
Proof.
  induction evs as [|ev evs IH]; intros h.
  - by exists [].
  - rewrite run_cons. simpl. rewrite step_calls.
    destruct (checkReminders_shape (refs h) (scanned h ev) (event_time ev))
      as [sel1 ->].
    destruct (IH (step h ev).1) as [sel2 ->].
    exists (sel1 ++ sel2). by rewrite bind_app.
Qed.

(** A handled id stays handled, and silent, for as long as no list shows
    its task completed. *)
Lemma run_handled evs : ∀ h i,
  i ∈ checkedTasksRef (refs h) →
  (∀ tasks task, tasks ∈ snapshots evs → task ∈ tasks →
                 id task = i → completed task = false) →
  i ∈ checkedTasksRef (refs (run h evs).1) ∧
  ∀ c, c ∈ (run h evs).2 → call_id c ≠ i.
Proof.
  induction evs as [|ev evs IH]; intros h i Hi Hsnap.
  - simpl. split; [done|]. intros c Hc. by apply elem_of_nil in Hc.
  - rewrite run_cons. simpl.
    assert (i ∈ checkedTasksRef (refs (step h ev).1)) as Hi1.
    { destruct ev as [tasks now | now].
      - rewrite step_TasksChanged. simpl. apply resetCompleted_checked. split.
        + apply checkReminders_checked. by left.
        + intros (t & Ht & Hc & Hid).
          rewrite (Hsnap tasks t) in Hc; [done | | done..].
          simpl. apply list_elem_of_here.
      - rewrite step_Tick. simpl. apply checkReminders_checked. by left. }
    destruct (IH (step h ev).1 i Hi1) as [Hfin Hsilent].
    { intros tasks t Hin. apply Hsnap.
      destruct ev; simpl; [by apply list_elem_of_further | done]. }
    split; [done|]. intros c [Hc | Hc]%elem_of_app; [|by apply Hsilent].
    rewrite step_calls in Hc.
    apply checkReminders_sound in Hc as (t & _ & _ & Hnot & Hd).
    intros <-. apply Hnot.
    unfold deliver in Hd. rewrite !elem_of_cons in Hd.
    by destruct Hd as [-> | [-> | []%elem_of_nil]].
Qed.

End Lifetime.

Example rent_eligible_at_nine : eligible (host := utc.host) nine rent.
Proof.
  unfold eligible.
  split_and!; [by eexists | by eexists | reflexivity | reflexivity |].
  exists nine. split_and!; [reflexivity | lia | lia].
Qed.

Example rent_eligible_five_seconds_late :
  eligible (host := utc.host) (nine + 5000) rent.
Proof.
  unfold eligible.
  split_and!; [by eexists | by eexists | reflexivity | reflexivity |].
  exists nine. split_and!; [reflexivity | unfold nine; lia | lia].
Qed.

(** The scenario of the specification: not selected half a minute early,
    selected five seconds late, not selected again once the flag is set. *)
Example scenario_early :
  checkReminders (host := utc.host) initialRefs [rent] (nine - 30000)
  = (mkRefs ∅ (nine - 30000), []).
Proof. reflexivity. Qed.

Example scenario_due :
  (checkReminders (host := utc.host) initialRefs [rent] (nine + 5000)).2
  = [onReminderTriggered rent; updateTask "task_1" shown].
Proof. reflexivity. Qed.

Example scenario_shown :
  (checkReminders (host := utc.host) initialRefs [rent_reminded]
     (nine + 10000)).2 = [].
Proof. reflexivity. Qed.

Example scenario_five_minutes_late :
  (checkReminders (host := utc.host) initialRefs [rent] (nine + 300000)).2
  = [].
Proof. reflexivity. Qed.

(** ** The claims *)

(** C1, as stated, fails on a throttled tick. The scanner evaluates half a
    second before [rent] is due and selects nothing; invoked again at the due
    time, 500 ms later, it returns at its throttle: [rent] is eligible and
    its id is not in the handled set, yet it is not selected. *)
Lemma C1_throttled_tick_selects_nothing :
  checkReminders (host := utc.host) initialRefs [rent] (nine - 500)
  = (mkRefs ∅ (nine - 500), []) ∧
  ¬ (selected
       (checkReminders (host := utc.host) (mkRefs ∅ (nine - 500)) [rent] nine).2
       rent
     ↔ eligible (host := utc.host) nine rent ∧
       id rent ∉ checkedTasksRef (mkRefs ∅ (nine - 500))).
Proof.
  split; [reflexivity|].
  intros [_ Hsel]. unfold selected in Hsel.
  assert (onReminderTriggered rent ∈ @nil Call) as Hin.
  { apply Hsel. split; [apply rent_eligible_at_nine|].
    apply not_elem_of_empty. }
  by apply elem_of_nil in Hin.
Qed.

(** C1 (amended). On a scanner tick that passes the throttle (at least
    1000 ms after the last evaluation), over a task list with distinct ids, a
    task of the list is selected if and only if it is eligible (both due
    fields present, not completed, no reminder shown, due timestamp [T] with
    [T <= now] and [now - T <= 60000]) and its id is not in the handled set.
    In particular it is selected neither before [T] nor after [T + 60000]. *)
Theorem C1_selected_iff_eligible_and_unhandled `{host : JsHost}
    (refs : Refs) (tasks : list Task) (now : Z) (task : Task) :
  1000 <= now - lastCheckTimeRef refs →
  NoDup (id <$> tasks) →
  task ∈ tasks →
  (selected (checkReminders refs tasks now).2 task
   ↔ eligible now task ∧ id task ∉ checkedTasksRef refs) ∧
  (∀ T, dueTimestamp task = Some T → now < T ∨ T + 60000 < now →
        ¬ selected (checkReminders refs tasks now).2 task).
Proof.
  intros Hgo Hnd Hin.
  assert (selected (checkReminders refs tasks now).2 task
          → eligible now task ∧ id task ∉ checkedTasksRef refs) as Hsound.
  { intros Hsel. apply checkReminders_sound in Hsel as (t & _ & He & Hn & Hd).
    unfold deliver in Hd. rewrite !elem_of_cons in Hd.
    by destruct Hd as [[= ->] | [[=] | []%elem_of_nil]]. }
  split.
  - split; [done|]. intros [He Hn].
    rewrite checkReminders_evaluates by done. simpl.
    by apply forEach_complete.
  - intros T HT Hout Hsel.
    destruct (Hsound Hsel) as [(_ & _ & _ & _ & T' & HT' & ? & ?) _].
    rewrite HT in HT'. injection HT' as <-. lia.
Qed.

Lemma C1_selected_iff_eligible_and_unhandled_witness :
  (selected
     (checkReminders (host := utc.host) initialRefs [rent; groceries]
        (nine + 5000)).2 rent
   ↔ eligible (host := utc.host) (nine + 5000) rent ∧
     id rent ∉ checkedTasksRef initialRefs) ∧
  (∀ T, dueTimestamp (host := utc.host) rent = Some T →
        nine + 5000 < T ∨ T + 60000 < nine + 5000 →
        ¬ selected
            (checkReminders (host := utc.host) initialRefs [rent; groceries]
               (nine + 5000)).2 rent).
Proof.
  apply (C1_selected_iff_eligible_and_unhandled (host := utc.host)
           initialRefs [rent; groceries] (nine + 5000) rent).
  - vm_compute. discriminate.
  - by_decide.
  - by_decide.
Defined.

(** C2. Once [reminder_shown] is true for a task in every list the scanner
    is given, no tick, however many run, selects it again: the scanner makes
    no call for its id, neither a notification nor a [reminder_shown]
    write. *)
Theorem C2_shown_task_never_selected_again `{host : JsHost}
    (h : Hook) (evs : list Event) (taskId : string) :
  (∀ tasks task,
     tasks ∈ useReminders.tasks h :: snapshots evs → task ∈ tasks →
     id task = taskId → reminder_shown task = true) →
  Forall (λ c, call_id c ≠ taskId) (run h evs).2.
Proof.
  intros Hshown. apply Forall_forall. intros c Hc Hid.
  apply run_sound in Hc as (tasks & t & now & Hin & Ht & He & Hd).
  assert (id t = taskId) as Hidt.
  { unfold deliver in Hd. rewrite !elem_of_cons in Hd.
    by destruct Hd as [-> | [-> | []%elem_of_nil]]. }
  destruct He as (_ & _ & _ & Hs & _).
  rewrite (Hshown tasks t Hin Ht Hidt) in Hs. discriminate.
Qed.

Lemma C2_shown_task_never_selected_again_witness :
  Forall (λ c, call_id c ≠ "task_1")
    (run (host := utc.host) (mkHook initialRefs [])
       [TasksChanged [rent_reminded; groceries] (nine + 5000);
        Tick (nine + 6000); Tick (nine + 7000)]).2.
Proof.
  apply (C2_shown_task_never_selected_again (host := utc.host)).
  intros tasks task Hin Ht Hid. simpl in Hin.
  rewrite !elem_of_cons, elem_of_nil in Hin. destruct Hin as [-> | [-> | []]].
  - by apply elem_of_nil in Ht.
  - rewrite !elem_of_cons, elem_of_nil in Ht.
    destruct Ht as [-> | [-> | []]]; [reflexivity | discriminate].
Defined.

Example shown_task_skipped_others_fire :
  (run (host := utc.host) (mkHook initialRefs [])
     [TasksChanged [rent_reminded; groceries] (nine + 5000);
      Tick (nine + 6000); Tick (nine + 7000)]).2
  = deliver groceries.
Proof. vm_compute. reflexivity. Qed.

(** In a sequence of deliveries every write comes right after the
    notification of its task. *)
Lemma deliveries_ordered (sel : list Task) : ∀ (k : nat) taskId updates,
  (sel ≫= deliver) !! k = Some (updateTask taskId updates) →
  ∃ task k', k = S k' ∧
             (sel ≫= deliver) !! k' = Some (onReminderTriggered task) ∧
             id task = taskId ∧ updates = shown.
Proof.
  induction sel as [|t sel IH]; intros k taskId updates Hk.
  - done.
  - rewrite bind_cons in *. unfold deliver at 1 in Hk. unfold deliver at 1.
    destruct k as [|[|k]]; simpl in *.
    + discriminate.
    + injection Hk as <- <-. by exists t, 0%nat.
    + destruct (IH _ _ _ Hk) as (task & k' & -> & Hk' & Hid & Hu).
      by exists task, (S (S k')).
Qed.

(** C3. In every run of the hook, a [reminder_shown] write for a task is
    issued only right after [onReminderTriggered] has been invoked for that
    task: the notification precedes the [updateTask] call. *)
Theorem C3_notification_precedes_write `{host : JsHost}
    (h : Hook) (evs : list Event) (k : nat) (taskId : string)
    (updates : PartialTask) :
  (run h evs).2 !! k = Some (updateTask taskId updates) →
  ∃ task k', k = S k' ∧
             (run h evs).2 !! k' = Some (onReminderTriggered task) ∧
             id task = taskId ∧ updates = shown.
Proof.
  destruct (run_shape evs h) as [sel ->]. apply deliveries_ordered.
Qed.

Lemma C3_notification_precedes_write_witness :
  ∃ task k', 3%nat = S k' ∧
    (run (host := utc.host) (mkHook initialRefs [])
       [TasksChanged [rent; groceries] (nine + 5000)]).2 !! k'
    = Some (onReminderTriggered task) ∧
    id task = "task_2" ∧ shown = shown.
Proof.
  apply (C3_notification_precedes_write (host := utc.host)
           (mkHook initialRefs [])
           [TasksChanged [rent; groceries] (nine + 5000)] 3 "task_2" shown).
  reflexivity.
Defined.

(** C5. An invocation less than the polling interval (1000 ms) after an
    evaluation does nothing: it leaves the refs as they are, so it evaluates
    no task, and makes no call, neither a notification nor a store write. *)
Theorem C5_second_invocation_is_throttled `{host : JsHost}
    (refs : Refs) (tasks1 tasks2 : list Task) (t1 t2 : Z) :
  1000 <= t1 - lastCheckTimeRef refs →
  t2 - t1 < 1000 →
  checkReminders (checkReminders refs tasks1 t1).1 tasks2 t2
  = ((checkReminders refs tasks1 t1).1, []).
Proof.
  intros Hfirst Hsoon. apply checkReminders_throttled.
  by rewrite checkReminders_evaluates.
Qed.

Lemma C5_second_invocation_is_throttled_witness :
  checkReminders (host := utc.host)
    (checkReminders (host := utc.host) initialRefs [] (nine - 400)).1
    [rent] nine
  = ((checkReminders (host := utc.host) initialRefs [] (nine - 400)).1, []).
Proof.
  apply (C5_second_invocation_is_throttled (host := utc.host)
           initialRefs [] [rent] (nine - 400) nine).
  - vm_compute. discriminate.
  - reflexivity.
Defined.

(** C6. A completed task is never selected, whatever its [reminder_shown]
    and due timestamp: no run of the hook notifies it, and a scan of a list
    (with distinct ids) that holds it makes no call for its id. *)
Theorem C6_completed_task_never_selected `{host : JsHost} (task : Task) :
  completed task = true →
  (∀ h evs, ¬ selected (run h evs).2 task) ∧
  (∀ refs tasks now c,
     task ∈ tasks → NoDup (id <$> tasks) →
     c ∈ (checkReminders refs tasks now).2 → call_id c ≠ id task).
Proof.
  intros Hdone. split.
  - intros h evs Hsel.
    apply run_sound in Hsel as (tasks & t & now & _ & _ & He & Hd).
    unfold deliver in Hd. rewrite !elem_of_cons in Hd.
    destruct Hd as [[= ->] | [[=] | []%elem_of_nil]].
    destruct He as (_ & _ & Hc & _). congruence.
  - intros refs tasks now c Hin Hnd Hc Hid.
    apply checkReminders_sound in Hc as (t & Ht & He & _ & Hd).
    assert (id t = id task) as Heq.
    { unfold deliver in Hd. rewrite !elem_of_cons in Hd.
      by destruct Hd as [-> | [-> | []%elem_of_nil]]. }
    assert (t = task) as ->.
    { apply list_elem_of_lookup in Ht as [i Hi], Hin as [j Hj].
      assert (i = j) as ->; [|congruence].
      apply (NoDup_lookup (id <$> tasks) i j (id task)); [done | |].
      - by rewrite list_lookup_fmap, Hi, <- Heq.
      - by rewrite list_lookup_fmap, Hj. }
    destruct He as (_ & _ & Hc & _). congruence.
Qed.

Lemma C6_completed_task_never_selected_witness :
  (∀ h evs, ¬ selected (run (host := utc.host) h evs).2 rent_completed) ∧
  (∀ refs tasks now c,
     rent_completed ∈ tasks →
     NoDup (id <$> tasks) →
     c ∈ (checkReminders (host := utc.host) refs tasks now).2 →
     call_id c ≠ "task_1").
Proof.
  apply (C6_completed_task_never_selected (host := utc.host) rent_completed).
  reflexivity.
Defined.

(** ** Re-arming *)

Section Rearm.
Context `{host : JsHost}.

(** Throttled invocations leave the hook as it is. *)
Lemma run_ticks_throttled (times : list Z) (h : Hook) :
  Forall (λ now, now - lastCheckTimeRef (refs h) < 1000) times →
  run h (Tick <$> times) = (h, []).
Proof.
  induction 1 as [|now times Hnow _ IH]; [done|].
  rewrite fmap_cons, run_cons, step_Tick.
  rewrite checkReminders_throttled by done. simpl.
  destruct h as [r l]. simpl in *. by rewrite IH.
Qed.

(** While the list shows a task completed, the interval's scans do not
    handle its id. *)
Lemma run_ticks_unhandled (times : list Z) : ∀ (h : Hook) taskId,
  taskId ∉ checkedTasksRef (refs h) →
  (∀ task, task ∈ useReminders.tasks h → id task = taskId →
           completed task = true) →
  taskId ∉ checkedTasksRef (refs (run h (Tick <$> times)).1).
Proof.
  induction times as [|now times IH]; intros h taskId Hnot Hdone; [done|].
  rewrite fmap_cons, run_cons. cbn [fst]. apply IH.
  - rewrite step_Tick. cbn [fst refs]. rewrite checkReminders_checked.
    intros [Hin | (t & Hsel & Hid)]; [done|].
    apply checkReminders_sound in Hsel as (t' & Ht' & He & _ & Hd).
    unfold deliver in Hd. rewrite !elem_of_cons in Hd.
    destruct Hd as [[= <-] | [[=] | []%elem_of_nil]].
    destruct He as (_ & _ & Hc & _).
    rewrite (Hdone t Ht' Hid) in Hc. discriminate.
  - by rewrite step_tasks.
Qed.

End Rearm.

(** C7. When the task list shows a task completed, its id leaves the handled
    set, and the interval's scans of that list do not put it back. If the
    task is then marked incomplete again and is eligible ([reminder_shown]
    false, due timestamp at most 60 seconds before [now]) at the next
    evaluation, the first invocation after the change that passes the
    throttle, that evaluation selects it: the notification fires again. *)
Theorem C7_uncompleted_task_fires_again `{host : JsHost}
    (h : Hook) (finished : list Task) (nowC : Z) (idle : list Z)
    (tasks : list Task) (skipped : list Z) (now : Z) (task : Task) :
  (∃ t, t ∈ finished ∧ id t = id task ∧ completed t = true) →
  NoDup (id <$> finished) →
  task ∈ tasks → NoDup (id <$> tasks) → eligible now task →
  Forall (λ n, n - lastCheckTimeRef (refs (after_completion h finished nowC idle))
               < 1000) skipped →
  1000 <= now - lastCheckTimeRef (refs (after_completion h finished nowC idle)) →
  (id task ∉ checkedTasksRef (refs (after_completion h finished nowC idle))) ∧
  selected
    (run (after_completion h finished nowC idle)
       (rerender tasks (skipped ++ [now]))).2 task.
Proof.
  intros (t & Ht & Hid & Hdone) Hnd Hin Hnd2 He.
  unfold after_completion. set (h1 := (run h _).1). intros Hskip Hgo.
  assert (id task ∉ checkedTasksRef (refs h1)) as Hfree.
  { unfold h1. rewrite run_cons. cbn [fst]. apply run_ticks_unhandled.
    - rewrite step_TasksChanged. cbn [fst refs].
      rewrite resetCompleted_checked. intros [_ Hno]. apply Hno. eauto.
    - rewrite step_tasks. cbn [scanned]. intros t' Ht' Hid'.
      assert (t' = t) as ->; [|done].
      apply list_elem_of_lookup in Ht as [i Hi], Ht' as [j Hj].
      assert (j = i) as ->; [|congruence].
      apply (NoDup_lookup (id <$> finished) j i (id task)); [done | |].
      + by rewrite list_lookup_fmap, Hj, <- Hid'.
      + by rewrite list_lookup_fmap, Hi, <- Hid. }
  split; [done|]. unfold selected.
  destruct skipped as [|n0 later].
  - change (rerender tasks ([] ++ [now])) with [TasksChanged tasks now].
    rewrite run_cons. cbn [fst snd run]. rewrite app_nil_r, step_calls.
    cbn [scanned event_time].
    rewrite checkReminders_evaluates by done. cbn [snd].
    by apply forEach_complete.
  - apply Forall_cons in Hskip as [Hn0 Hlater].
    change (rerender tasks ((n0 :: later) ++ [now]))
      with (TasksChanged tasks n0 :: (Tick <$> (later ++ [now]))).
    rewrite fmap_app, run_cons, run_app. cbn [fst snd].
    pose proof (step_TasksChanged h1 tasks n0) as Hstep.
    rewrite checkReminders_throttled in Hstep by done. cbn [fst snd] in Hstep.
    rewrite Hstep. cbn [fst snd app].
    rewrite run_ticks_throttled by done. cbn [fst snd app].
    change (Tick <$> [now]) with [Tick now].
    rewrite run_cons. cbn [fst snd run]. rewrite app_nil_r, step_calls.
    cbn [scanned event_time useReminders.tasks refs].
    rewrite checkReminders_evaluates by done. cbn [snd].
    apply forEach_complete; try done.
    change (id task ∉ checkedTasksRef (resetCompleted (refs h1) tasks)).
    rewrite resetCompleted_checked. tauto.
Qed.

Lemma C7_uncompleted_task_fires_again_witness :
  (id rent
   ∉ checkedTasksRef
       (refs (after_completion (host := utc.host)
                (mkHook (mkRefs {["task_1"]} nine) [rent])
                [rent_completed] (nine + 10000)
                [nine + 11000; nine + 12000]))) ∧
  selected
    (run (host := utc.host)
       (after_completion (host := utc.host)
          (mkHook (mkRefs {["task_1"]} nine) [rent])
          [rent_completed] (nine + 10000) [nine + 11000; nine + 12000])
       (rerender [rent] ([nine + 12400] ++ [nine + 13000]))).2 rent.
Proof.
  apply (C7_uncompleted_task_fires_again (host := utc.host)
           (mkHook (mkRefs {["task_1"]} nine) [rent])
           [rent_completed] (nine + 10000) [nine + 11000; nine + 12000]
           [rent] [nine + 12400] (nine + 13000) rent).
  - exists rent_completed.
    split; [apply list_elem_of_here | split; reflexivity].
  - by_decide.
  - by_decide.
  - by_decide.
  - unfold eligible.
    split_and!; [by eexists | by eexists | reflexivity | reflexivity |].
    exists nine. split_and!; [reflexivity | unfold nine; lia | lia].
  - by_decide.
  - vm_compute. discriminate.
Defined.

Example rearm_fires_again :
  (run (host := utc.host) (mkHook (mkRefs {["task_1"]} nine) [rent])
     [TasksChanged [rent_completed] (nine + 10000);
      Tick (nine + 11000); Tick (nine + 12000);
      TasksChanged [rent] (nine + 12400); Tick (nine + 13000)]).2
  = deliver rent.
Proof. vm_compute. reflexivity. Qed.

(** ** A failed acknowledgement *)

Lemma useTasks_updateTask_failure ok now taskId updates st :
  (useTasks.updateTask ok now taskId updates st).1 = false →
  (useTasks.updateTask ok now taskId updates st).2 = st.
Proof.
  unfold useTasks.updateTask, database.updateTask. destruct st as [db tasks].
  simpl. destruct ok; [|done]. by destruct (db !! taskId).
Qed.

(** The states of the counterexample to C4: the write of [reminder_shown]
    fails, then the user completes the task and marks it incomplete again. *)
Example refire_states :
  let st0 := useTasks.mkState {[ "task_1" := rent ]} [rent] in
  let st1 :=
    (useTasks.toggleComplete true "2024-01-01T09:00:09.500Z" "task_1" true
       st0).2 in
  let st2 :=
    (useTasks.toggleComplete true "2024-01-01T09:00:19.000Z" "task_1" false
       st1).2 in
  useTasks.updateTask false "2024-01-01T09:00:00.100Z" "task_1" shown st0
  = (false, st0) ∧
  (reminder_shown <$> useTasks.db st2 !! "task_1") = Some false ∧
  (completed <$> useTasks.tasks st1) = [true] ∧
  useTasks.tasks st2 = [rent_reopened].
Proof. vm_compute. done. Qed.

(** C4, as stated, fails. [rent] is notified at nine and the write of
    [reminder_shown] fails, leaving the state as it was. The interval fires
    every second. At 09:00:09.5 the user completes the task, which releases
    its handled marker, and at 09:00:19 marks it incomplete again; the
    interval's scan at 09:00:20 notifies the task a second time in the same
    process lifetime. *)
Lemma C4_notification_fires_again_after_failed_write :
  let st0 := useTasks.mkState {[ "task_1" := rent ]} [rent] in
  let st1 :=
    (useTasks.toggleComplete true "2024-01-01T09:00:09.500Z" "task_1" true
       st0).2 in
  let st2 :=
    (useTasks.toggleComplete true "2024-01-01T09:00:19.000Z" "task_1" false
       st1).2 in
  let first :=
    step (host := utc.host) (mkHook initialRefs [])
      (TasksChanged (useTasks.tasks st0) nine) in
  let later :=
    run (host := utc.host) first.1
      ((Tick <$> every_second (nine + 1000) 9)
       ++ [TasksChanged (useTasks.tasks st1) (nine + 9500)]
       ++ (Tick <$> every_second (nine + 10500) 9)
       ++ [TasksChanged (useTasks.tasks st2) (nine + 19000);
           Tick (nine + 20000)]) in
  first.2 = deliver rent ∧
  "task_1" ∈ checkedTasksRef (refs first.1) ∧
  useTasks.updateTask false "2024-01-01T09:00:00.100Z" "task_1" shown st0
  = (false, st0) ∧
  id rent_reopened = id rent ∧ later.2 = deliver rent_reopened.
Proof.
  split_and!; [reflexivity | by_decide | reflexivity | reflexivity |].
  vm_compute. reflexivity.
Qed.

(** C4 (amended). When the scanner selects a task, its id is in the handled
    set whatever becomes of the write; a failed [updateTask] leaves the store
    and the task list as they were, so the durable [reminder_shown] stays
    false; and the later invocations of the process make no call for that id
    for as long as no task list given to the hook shows a task of that id
    completed (which would release the marker). *)
Theorem C4_failed_write_keeps_marker `{host : JsHost}
    (refs : Refs) (tasks : list Task) (now : Z) (task : Task) :
  selected (checkReminders refs tasks now).2 task →
  id task ∈ checkedTasksRef (checkReminders refs tasks now).1 ∧
  (∀ ok iso st,
     (useTasks.updateTask ok iso (id task) shown st).1 = false →
     (useTasks.updateTask ok iso (id task) shown st).2 = st) ∧
  (∀ held evs,
     (∀ snapshot t, snapshot ∈ snapshots evs → t ∈ snapshot →
                    id t = id task → completed t = false) →
     ∀ c, c ∈ (run (mkHook (checkReminders refs tasks now).1 held) evs).2 →
          call_id c ≠ id task).
Proof.
  intros Hsel.
  assert (id task ∈ checkedTasksRef (checkReminders refs tasks now).1) as Hin.
  { apply checkReminders_checked. right. eauto. }
  split_and!; [done | |].
  - intros ok iso st. apply useTasks_updateTask_failure.
  - intros held evs Hsnap.
    by apply (run_handled evs (mkHook (checkReminders refs tasks now).1 held)).
Qed.

Lemma C4_failed_write_keeps_marker_witness :
  (id rent
   ∈ checkedTasksRef
       (checkReminders (host := utc.host) initialRefs [rent] nine).1) ∧
  (∀ ok iso st,
     (useTasks.updateTask ok iso (id rent) shown st).1 = false →
     (useTasks.updateTask ok iso (id rent) shown st).2 = st) ∧
  (∀ held evs,
     (∀ snapshot t, snapshot ∈ snapshots evs → t ∈ snapshot →
                    id t = id rent → completed t = false) →
     ∀ c,
       c ∈ (run (host := utc.host)
              (mkHook
                 (checkReminders (host := utc.host) initialRefs [rent] nine).1
                 held) evs).2 →
       call_id c ≠ id rent).
Proof.
  apply (C4_failed_write_keeps_marker (host := utc.host)
           initialRefs [rent] nine rent).
  unfold selected. by_decide.
Defined.

(** ** The store *)

(** The operations keep every record under its id. *)
Lemma addTask_keyed ok env taskData db :
  keyed db → keyed (database.addTask ok env taskData db).2.
Proof.
  intros Hk. unfold database.addTask. destruct ok; [|done].
  destruct (db !! _); [done|]. simpl. by apply map_Forall_insert_2.
Qed.

Lemma updateTask_keyed ok now taskId updates db :
  keyed db → keyed (database.updateTask ok now taskId updates db).2.
Proof.
  intros Hk. unfold database.updateTask. destruct ok; [|done].
  destruct (db !! taskId); [|done]. simpl. by apply map_Forall_insert_2.
Qed.

Lemma deleteTask_keyed ok taskId db :
  keyed db → keyed (database.deleteTask ok taskId db).2.
Proof.
  intros Hk. unfold database.deleteTask. destruct ok; [|done].
  simpl. by apply map_Forall_delete.
Qed.

(** A successful update is stored under the id it was asked for. *)
Lemma updateTask_stored now taskId updates db updated db' :
  keyed db →
  database.updateTask true now taskId updates db = (Resolve updated, db') →
  db' !! taskId = Some updated ∧ id updated = taskId.
Proof.
  intros Hk. unfold database.updateTask.
  destruct (db !! taskId) as [existing|] eqn:Hget; [|discriminate].
  intros [= <- <-]. simpl. rewrite (Hk taskId existing Hget).
  split; [apply lookup_insert_eq | done].
Qed.

(** C8. [updateTask] does not reset [reminder_shown]: for a stored task
    whose [reminder_shown] is true, an update that does not name
    [reminder_shown] stores a task whose [reminder_shown] is still true. For
    every stored task and every update, [updateTask] resolves with the
    merged task and puts it in the store under the stored task's id: it
    keeps the id even when the update names one, sets [updated_at] to the
    time of the call even when the update names one, and takes every other
    field, [reminder_shown] included, from the update when the update has it
    and from the stored task otherwise. *)
Theorem C8_update_keeps_reminder_shown
    (db : gmap string Task) (taskId : string) (existing : Task)
    (updates : PartialTask) (now : string) :
  db !! taskId = Some existing →
  ∃ updated,
    database.updateTask true now taskId updates db
    = (Resolve updated, <[id existing := updated]> db) ∧
    (reminder_shown existing = true → p_reminder_shown updates = None →
     reminder_shown updated = true) ∧
    id updated = id existing ∧
    updated_at updated = now ∧
    title updated = default (title existing) (p_title updates) ∧
    description updated
    = default (description existing) (p_description updates) ∧
    due_date updated = default (due_date existing) (p_due_date updates) ∧
    due_time updated = default (due_time existing) (p_due_time updates) ∧
    completed updated = default (completed existing) (p_completed updates) ∧
    reminder_shown updated
    = default (reminder_shown existing) (p_reminder_shown updates) ∧
    created_at updated
    = default (created_at existing) (p_created_at updates).
Proof.
  intros Hget. unfold database.updateTask. rewrite Hget.
  eexists. split; [reflexivity|]. simpl. split_and!; try done.
  by intros -> ->.
Qed.

Lemma C8_update_keeps_reminder_shown_witness :
  ∃ updated,
    database.updateTask true "2024-01-01T09:30:00.000Z" "task_1"
      (mkPartial (Some "task_9") None None (Some (Some "2024-02-01"))
         (Some (Some "18:30")) None None None (Some "1999"))
      {[ "task_1" := rent_reminded ]}
    = (Resolve updated,
       <[id rent_reminded := updated]> {[ "task_1" := rent_reminded ]}) ∧
    (reminder_shown rent_reminded = true → @None bool = None →
     reminder_shown updated = true) ∧
    id updated = id rent_reminded ∧
    updated_at updated = "2024-01-01T09:30:00.000Z" ∧
    title updated = default (title rent_reminded) None ∧
    description updated = default (description rent_reminded) None ∧
    due_date updated
    = default (due_date rent_reminded) (Some (Some "2024-02-01")) ∧
    due_time updated = default (due_time rent_reminded) (Some (Some "18:30")) ∧
    completed updated = default (completed rent_reminded) None ∧
    reminder_shown updated = default (reminder_shown rent_reminded) None ∧
    created_at updated = default (created_at rent_reminded) None.
Proof.
  apply (C8_update_keeps_reminder_shown {[ "task_1" := rent_reminded ]}
           "task_1" rent_reminded
           (mkPartial (Some "task_9") None None (Some (Some "2024-02-01"))
              (Some (Some "18:30")) None None None (Some "1999"))
           "2024-01-01T09:30:00.000Z");
    reflexivity.
Defined.

(** The update may also name [reminder_shown]; the stored value is then the
    one named, for a task on any value. *)
Example updateTask_names_reminder_shown :
  (database.updateTask true "2024-01-01T09:30:00.000Z" "task_1"
     (mkPartial None (Some "Pay the rent") None None None (Some true)
        (Some false) None None)
     {[ "task_1" := rent_reminded ]}).1
  = Resolve (mkTask "task_1" "Pay the rent" (description rent_reminded)
               (due_date rent_reminded) (due_time rent_reminded) true false
               (created_at rent_reminded) "2024-01-01T09:30:00.000Z").
Proof. vm_compute. reflexivity. Qed.

(** *** The order of [getAllTasks] *)

Section Sorting.
Context `{host : JsHost}.

Lemma compareFn_le a b :
  valid a → valid b → database.compareFn a b <= 0 → newest_first a b.
Proof.
  intros [ta Ha] [tb Hb]. unfold database.compareFn, newest_first.
  rewrite Ha, Hb. intros Hle. exists ta, tb. split_and!; [done..|lia].
Qed.

Lemma compareFn_gt a b :
  valid a → valid b → ¬ database.compareFn a b <= 0 → newest_first b a.
Proof.
  intros [ta Ha] [tb Hb]. unfold database.compareFn, newest_first.
  rewrite Ha, Hb. intros Hgt. exists tb, ta. split_and!; [done..|lia].
Qed.

Lemma insert_sorted_perm cmp x l : database.insert_sorted cmp x l ≡ₚ x :: l.
Proof.
  induction l as [|y l IH]; simpl; [done|].
  destruct (cmp x y <=? 0); [done|]. rewrite IH. apply Permutation_swap.
Qed.

Lemma sort_perm cmp l : database.sort cmp l ≡ₚ l.
Proof.
  induction l as [|x l IH]; simpl; [done|].
  by rewrite insert_sorted_perm, IH.
Qed.

Lemma insert_sorted_HdRel x y l :
  newest_first y x → HdRel newest_first y l →
  HdRel newest_first y (database.insert_sorted database.compareFn x l).
Proof.
  intros Hyx Hhd. destruct l as [|z l]; simpl; [by constructor|].
  destruct (database.compareFn x z <=? 0); constructor; [done|].
  by inversion Hhd.
Qed.

Lemma insert_sorted_Sorted x l :
  valid x → Forall valid l → Sorted newest_first l →
  Sorted newest_first (database.insert_sorted database.compareFn x l).
Proof.
  intros Hx Hl Hs. induction Hs as [|y l Hs IH Hhd]; simpl.
  - repeat constructor.
  - apply Forall_cons in Hl as [Hy Hl].
    destruct (Z.leb_spec (database.compareFn x y) 0) as [Hle | Hgt].
    + constructor; [by constructor|]. constructor.
      by apply compareFn_le.
    + constructor; [by apply IH|]. apply insert_sorted_HdRel; [|done].
      apply compareFn_gt; [done..|lia].
Qed.

Lemma sort_Sorted l :
  Forall valid l → Sorted newest_first (database.sort database.compareFn l).
Proof.
  induction 1 as [|x l Hx Hl IH]; simpl; [constructor|].
  apply insert_sorted_Sorted; [done | | done].
  by rewrite sort_perm.
Qed.

Lemma Sorted_adjacent {A} (R : relation A) (l : list A) :
  Sorted R l → ∀ (i : nat) a b,
  l !! i = Some a → l !! S i = Some b → R a b.
Proof.
  induction 1 as [|x l Hs IH Hhd]; intros i a b Ha Hb; [done|].
  destruct i as [|i]; simpl in *.
  - injection Ha as ->. destruct Hhd as [|y l Hxy]; [done|].
    simpl in Hb. by injection Hb as ->.
  - by apply (IH i).
Qed.

Lemma getAll_valid (db : gmap string Task) :
  created_at_valid db → Forall valid (database.getAll db).
Proof.
  intros Hdb. apply Forall_forall. intros t Ht.
  unfold database.getAll in Ht.
  apply list_elem_of_fmap_1 in Ht as ([k t'] & -> & Hkt).
  apply elem_of_map_to_list in Hkt. by apply (Hdb k).
Qed.

End Sorting.

(** The operations of the store keep the stored [created_at] strings
    readable, as long as the clock of [addTask] writes a readable one and no
    update names one that is not. *)
Lemma addTask_created_at_valid `{host : JsHost} ok env taskData db :
  is_Some (DateParse (database.iso_now env)) →
  created_at_valid db →
  created_at_valid (database.addTask ok env taskData db).2.
Proof.
  intros Hnow Hdb. unfold database.addTask. destruct ok; [|done].
  destruct (db !! _); [done|]. simpl. by apply map_Forall_insert_2.
Qed.

Lemma updateTask_created_at_valid `{host : JsHost} ok now taskId updates db :
  (∀ written, p_created_at updates = Some written →
     is_Some (DateParse written)) →
  created_at_valid db →
  created_at_valid (database.updateTask ok now taskId updates db).2.
Proof.
  intros Hwritten Hdb. unfold database.updateTask. destruct ok; [|done].
  destruct (db !! taskId) as [existing|] eqn:Hget; [|done]. simpl.
  apply map_Forall_insert_2; [|done]. unfold valid. simpl.
  destruct (p_created_at updates) as [written|]; simpl.
  - by apply Hwritten.
  - by apply (Hdb taskId).
Qed.

Lemma deleteTask_created_at_valid `{host : JsHost} ok taskId db :
  created_at_valid db →
  created_at_valid (database.deleteTask ok taskId db).2.
Proof.
  intros Hdb. unfold database.deleteTask. destruct ok; [|done].
  simpl. by apply map_Forall_delete.
Qed.

(** A task whose [created_at] no [Date] reads is in [created_at] order with
    no task, on either side. *)
Lemma newest_first_unreadable `{host : JsHost} (a b : Task) :
  DateParse (created_at a) = None →
  ¬ newest_first a b ∧ ¬ newest_first b a.
Proof.
  intros Hnone. split; intros (ta & tb & Ha & Hb & _); congruence.
Qed.

(** C9, as the claim has it, fails: [updateTask] stores the [created_at] an
    update names, readable or not, and next to a task whose [created_at] no
    [Date] reads the comparator of [getAllTasks] is [NaN], so the sort leaves
    the pair as it stands. After [redate] of the second task the result is
    the first task followed by the redated one, as the store lists them by
    key, and the timestamp of the first is not greater than or equal to the
    other's, which has none (nor is it the other way round, so the pair is
    out of order whichever way it is listed). *)
Lemma C9_unreadable_created_at_breaks_order :
  database.updateTask true "2024-01-02T08:00:00.000Z" "task_2" redate two_tasks
  = (Resolve groceries_redated, redated_tasks) ∧
  database.getAllTasks (host := utc.host) true redated_tasks
  = (Resolve [rent; groceries_redated], redated_tasks) ∧
  ¬ newest_first (host := utc.host) rent groceries_redated ∧
  ¬ newest_first (host := utc.host) groceries_redated rent.
Proof.
  split; [vm_compute; reflexivity|]. split; [vm_compute; reflexivity|].
  by apply and_comm, newest_first_unreadable.
Qed.

(** C9, amended. When every stored [created_at] reads as a date,
    [getAllTasks] returns the stored tasks newest created first: the result
    holds the records of the store, each once, and of two neighbours in it
    the earlier has the greater or equal [created_at] timestamp. A task that
    [addTask] creates is stored with [completed] and [reminder_shown]
    false. *)
Theorem C9_newest_first_and_fresh_flags `{host : JsHost}
    (db : gmap string Task) (ok : bool) (env : database.Clock)
    (taskData : database.TaskData) (db0 db1 : gmap string Task) (task : Task) :
  created_at_valid db →
  database.addTask ok env taskData db0 = (Resolve task, db1) →
  (∃ tasks,
     database.getAllTasks true db = (Resolve tasks, db) ∧
     tasks ≡ₚ (map_to_list db).*2 ∧
     (∀ stored, stored ∈ tasks ↔ ∃ key, db !! key = Some stored) ∧
     length tasks = size db ∧
     ∀ (i : nat) a b,
       tasks !! i = Some a → tasks !! S i = Some b → newest_first a b) ∧
  (completed task = false ∧ reminder_shown task = false ∧
   db1 !! id task = Some task).
Proof.
  intros Hvalid Hadd. split.
  - eexists. split; [reflexivity|].
    assert (database.sort database.compareFn (database.getAll db)
            ≡ₚ (map_to_list db).*2) as Hperm by apply sort_perm.
    split_and!.
    + done.
    + intros stored. rewrite Hperm, list_elem_of_fmap. split.
      * intros ([key t] & -> & Hkt). exists key.
        by apply elem_of_map_to_list.
      * intros [key Hkey]. exists (key, stored). split; [done|].
        by apply elem_of_map_to_list.
    + by rewrite Hperm, length_fmap, length_map_to_list.
    + apply Sorted_adjacent, sort_Sorted. by apply getAll_valid.
  - unfold database.addTask in Hadd. destruct ok; [|discriminate].
    destruct (db0 !! _) eqn:Hfree; [discriminate|].
    injection Hadd as <- <-. simpl.
    split_and!; [done..|]. apply lookup_insert_eq.
Qed.

Lemma C9_newest_first_and_fresh_flags_witness :
  (∃ tasks,
     database.getAllTasks (host := utc.host) true three_tasks
     = (Resolve tasks, three_tasks) ∧
     tasks ≡ₚ (map_to_list three_tasks).*2 ∧
     (∀ stored, stored ∈ tasks ↔ ∃ key, three_tasks !! key = Some stored) ∧
     length tasks = size three_tasks ∧
     ∀ (i : nat) a b,
       tasks !! i = Some a → tasks !! S i = Some b →
       newest_first (host := utc.host) a b) ∧
  (completed bank = false ∧ reminder_shown bank = false ∧
   three_tasks !! id bank = Some bank).
Proof.
  apply (C9_newest_first_and_fresh_flags (host := utc.host)
           three_tasks true bank_clock bank_data two_tasks three_tasks bank).
  - by_decide.
  - vm_compute. reflexivity.
Defined.

Example getAllTasks_three_tasks :
  (database.getAllTasks (host := utc.host) true three_tasks).1
  = Resolve [bank; groceries; rent].
Proof. vm_compute. reflexivity. Qed.

Example addTask_taken_id :
  database.addTask true bank_clock bank_data three_tasks
  = (Reject ConstraintError, three_tasks).
Proof. vm_compute. reflexivity. Qed.

(** C10. [deleteTask] on an id the store does not hold resolves and leaves
    the store as it was, where [updateTask] on such an id rejects with
    'Task not found'. *)
Theorem C10_delete_absent_resolves
    (db : gmap string Task) (taskId : string) :
  db !! taskId = None →
  database.deleteTask true taskId db = (Resolve tt, db) ∧
  (∀ tasks,
     (useTasks.deleteTask true taskId (useTasks.mkState db tasks)).1 = true) ∧
  (∀ now updates,
     database.updateTask true now taskId updates db
     = (Reject (JsError "Task not found"), db)).
Proof.
  intros Habsent. split_and!.
  - unfold database.deleteTask. by rewrite delete_id.
  - done.
  - intros now updates. unfold database.updateTask. by rewrite Habsent.
Qed.

Lemma C10_delete_absent_resolves_witness :
  database.deleteTask true "task_7" two_tasks = (Resolve tt, two_tasks) ∧
  (∀ tasks,
     (useTasks.deleteTask true "task_7" (useTasks.mkState two_tasks tasks)).1
     = true) ∧
  (∀ now updates,
     database.updateTask true now "task_7" updates two_tasks
     = (Reject (JsError "Task not found"), two_tasks)).
Proof.
  apply (C10_delete_absent_resolves two_tasks "task_7"). reflexivity.
Defined.

(** * Further properties of the store and of the task state *)

(** ** The records of the store *)

Lemma getAll_elem (db : gmap string Task) task :
  task ∈ database.getAll db ↔ ∃ key, db !! key = Some task.
Proof.
  unfold database.getAll. rewrite list_elem_of_fmap. split.
  - intros ([k t] & -> & Hkt). exists k. by apply elem_of_map_to_list.
  - intros [k Hk]. exists (k, task). split; [done|].
    by apply elem_of_map_to_list.
Qed.

Lemma getAll_insert_fresh (db : gmap string Task) key task :
  db !! key = None → database.getAll (<[key := task]> db) ≡ₚ task :: database.getAll db.
Proof.
  intros Hfree. unfold database.getAll.
  by rewrite map_to_list_insert.
Qed.

Lemma getAll_delete (db : gmap string Task) key task :
  db !! key = Some task →
  database.getAll db ≡ₚ task :: database.getAll (delete key db).
Proof.
  intros Hget. unfold database.getAll.
  by rewrite <- (map_to_list_delete db key task).
Qed.

Lemma getAll_ids (db : gmap string Task) :
  keyed db → id <$> database.getAll db = (map_to_list db).*1.
Proof.
  intros Hk. unfold database.getAll. rewrite <- list_fmap_compose.
  apply list_fmap_ext. intros i [k t] Hi. simpl.
  apply (Hk k t). apply elem_of_map_to_list.
  apply list_elem_of_lookup. eauto.
Qed.

Lemma getAll_NoDup_ids (db : gmap string Task) :
  keyed db → NoDup (id <$> database.getAll db).
Proof. intros Hk. rewrite getAll_ids by done. apply NoDup_fst_map_to_list. Qed.

(** X1. [addTask] resolves exactly when IndexedDB serves the call and the id
    it builds, [task_<Date.now()>_<random suffix>], is not taken. It then
    stores the new task under that id: the id reads it back, every other key
    reads what it read before, and the store has one record more. *)
Theorem X1_addTask_resolves_iff_id_free
    (ok : bool) (env : database.Clock) (taskData : database.TaskData)
    (db : gmap string Task) :
  let taskId :=
    "task_" +:+ pretty (database.date_now env) +:+ "_"
    +:+ database.random36 env in
  (succeeded (database.addTask ok env taskData db).1 = true
   ↔ ok = true ∧ db !! taskId = None) ∧
  ∀ task db',
    database.addTask ok env taskData db = (Resolve task, db') →
    id task = taskId ∧ db' !! taskId = Some task ∧
    (∀ key, key ≠ taskId → db' !! key = db !! key) ∧
    size db' = S (size db).
Proof.
  intros taskId. unfold database.addTask. fold taskId.
  destruct ok; [|split; [split; [done | by intros [? _]] | done]].
  destruct (db !! taskId) eqn:Hget; simpl.
  - split; [split; [done | by intros [_ ?]] | done].
  - split; [done|]. intros task db' [= <- <-]. simpl. split_and!.
    + done.
    + apply lookup_insert_eq.
    + intros key Hne. by apply lookup_insert_ne.
    + by apply map_size_insert_None.
Qed.

(** X5. On a store that keeps every record under its id, [getAllTasks]
    returns each stored record once: as many tasks as the store has records,
    with pairwise distinct ids; and it leaves the store as it was. *)
Theorem X5_getAllTasks_distinct_ids `{host : JsHost}
    (db : gmap string Task) :
  keyed db →
  ∃ tasks,
    database.getAllTasks true db = (Resolve tasks, db) ∧
    length tasks = size db ∧
    NoDup (id <$> tasks) ∧
    ∀ task, task ∈ tasks ↔ db !! id task = Some task.
Proof.
  intros Hk. eexists. split; [reflexivity|]. split_and!.
  - rewrite sort_perm. unfold database.getAll.
    by rewrite length_fmap, length_map_to_list.
  - rewrite sort_perm. by apply getAll_NoDup_ids.
  - intros task. rewrite sort_perm, getAll_elem. split.
    + intros [k Hget]. by rewrite (Hk k task Hget).
    + eauto.
Qed.

Lemma X5_getAllTasks_distinct_ids_witness :
  ∃ tasks,
    database.getAllTasks (host := utc.host) true three_tasks
    = (Resolve tasks, three_tasks) ∧
    length tasks = size three_tasks ∧
    NoDup (id <$> tasks) ∧
    ∀ task, task ∈ tasks ↔ three_tasks !! id task = Some task.
Proof.
  apply (X5_getAllTasks_distinct_ids (host := utc.host) three_tasks).
  by_decide.
Defined.

(** X6. Adding a task and deleting it again gives the store back: after an
    [addTask] that resolved, [deleteTask] of the new id resolves and leaves
    the store that was there before the task was added; a second
    [deleteTask] of that id resolves too and changes nothing. *)
Theorem X6_add_then_delete_restores
    (env : database.Clock) (taskData : database.TaskData)
    (db db' : gmap string Task) (task : Task) :
  database.addTask true env taskData db = (Resolve task, db') →
  database.deleteTask true (id task) db' = (Resolve tt, db) ∧
  database.deleteTask true (id task) db = (Resolve tt, db).
Proof.
  unfold database.addTask, database.deleteTask.
  destruct (db !! _) eqn:Hfree; [discriminate|].
  intros [= <- <-]. simpl. split.
  - by rewrite delete_insert_eq, delete_id.
  - by rewrite delete_id.
Qed.

Lemma X6_add_then_delete_restores_witness :
  database.deleteTask true (id bank) three_tasks = (Resolve tt, two_tasks) ∧
  database.deleteTask true (id bank) two_tasks = (Resolve tt, two_tasks).
Proof.
  apply (X6_add_then_delete_restores bank_clock bank_data
           two_tasks three_tasks bank).
  vm_compute. reflexivity.
Defined.

(** X7. After [clearAllTasks] the store is empty: [getAllTasks] resolves to
    the empty list, [updateTask] of any id rejects with 'Task not found', and
    [addTask] finds its id free. *)
Theorem X7_clearAllTasks_empties `{host : JsHost} (db : gmap string Task) :
  let cleared := (database.clearAllTasks true db).2 in
  (database.clearAllTasks true db).1 = Resolve tt ∧
  database.getAllTasks true cleared = (Resolve [], cleared) ∧
  (∀ now taskId updates,
     database.updateTask true now taskId updates cleared
     = (Reject (JsError "Task not found"), cleared)) ∧
  (∀ env taskData,
     succeeded (database.addTask true env taskData cleared).1 = true).
Proof.
  simpl. split_and!; [done | | |].
  - unfold database.getAllTasks, database.getAll.
    by rewrite map_to_list_empty.
  - intros now taskId updates. unfold database.updateTask.
    by rewrite lookup_empty.
  - intros env taskData. unfold database.addTask. by rewrite lookup_empty.
Qed.

(** X8. [updateTask] neither adds nor removes a record: on a store that
    keeps every record under its id, a resolved update leaves the set of ids
    as it was, replaces the record of the given id only, and the store still
    keeps every record under its id. *)
Theorem X8_updateTask_touches_one_record
    (db db' : gmap string Task) (now taskId : string)
    (updates : PartialTask) (updated : Task) :
  keyed db →
  database.updateTask true now taskId updates db = (Resolve updated, db') →
  dom db' = dom db ∧
  db' !! taskId = Some updated ∧
  (∀ key, key ≠ taskId → db' !! key = db !! key) ∧
  keyed db'.
Proof.
  intros Hk Hup.
  pose proof (updateTask_keyed true now taskId updates db Hk) as Hk'.
  rewrite Hup in Hk'. simpl in Hk'.
  destruct (updateTask_stored now taskId updates db updated db' Hk Hup)
    as [Hget Hid].
  unfold database.updateTask in Hup.
  destruct (db !! taskId) as [existing|] eqn:Hold; [|discriminate].
  injection Hup as <- <-. simpl in *. rewrite (Hk taskId existing Hold) in *.
  split_and!; [|done| |done].
  - apply dom_insert_lookup_L. eauto.
  - intros key Hne. by apply lookup_insert_ne.
Qed.

Lemma X8_updateTask_touches_one_record_witness :
  let updated :=
    {| id := "task_2"; title := "Buy groceries";
       description := "[HIGH] milk";
       due_date := Some "2024-01-03"; due_time := Some "09:00";
       completed := false; reminder_shown := false;
       created_at := "2023-12-31T12:30:00.000Z";
       updated_at := "2024-01-01T10:00:00.000Z" |} in
  dom (<["task_2" := updated]> two_tasks) = dom two_tasks ∧
  <["task_2" := updated]> two_tasks !! "task_2" = Some updated ∧
  (∀ key, key ≠ "task_2" →
          <["task_2" := updated]> two_tasks !! key = two_tasks !! key) ∧
  keyed (<["task_2" := updated]> two_tasks).
Proof.
  apply (X8_updateTask_touches_one_record two_tasks _
           "2024-01-01T10:00:00.000Z" "task_2"
           (mkPartial (Some "task_5") None None (Some (Some "2024-01-03"))
              None None None None None)).
  - by_decide.
  - vm_compute. reflexivity.
Defined.

(** ** The task state *)

(** A permutation that is an equality. *)
Ltac perm_by_eq :=
  match goal with
  | |- ?a ≡ₚ ?b => cut (a = b); [intros ->; reflexivity|]
  end.

Section TaskState.
Context `{host : JsHost}.

Lemma filter_all {A} (P : A → Prop) `{∀ x, Decision (P x)} (l : list A) :
  Forall P l → filter P l = l.
Proof.
  induction 1 as [|x l Hx _ IH]; [done|].
  by rewrite filter_cons_True, IH.
Qed.

(** In a state in sync with a keyed store, a task of the list is the record
    the store holds under its id. *)
Lemma in_sync_elem st task :
  keyed (useTasks.db st) → in_sync st → task ∈ useTasks.tasks st →
  useTasks.db st !! id task = Some task.
Proof.
  intros Hk Hs Hin. unfold in_sync in Hs. rewrite Hs in Hin.
  apply getAll_elem in Hin as [k Hget]. by rewrite (Hk k task Hget).
Qed.

Lemma fetchTasks_invariant ok st :
  keyed (useTasks.db st) → in_sync st →
  keyed (useTasks.db (useTasks.fetchTasks ok st)) ∧
  in_sync (useTasks.fetchTasks ok st).
Proof.
  intros Hk Hs. unfold in_sync in *. unfold useTasks.fetchTasks, database.getAllTasks.
  destruct ok; simpl; [|done]. split; [done|].
  unfold in_sync. simpl. apply sort_perm.
Qed.

Lemma addTask_invariant ok env taskData st :
  keyed (useTasks.db st) → in_sync st →
  keyed (useTasks.db (useTasks.addTask ok env taskData st).2) ∧
  in_sync (useTasks.addTask ok env taskData st).2.
Proof.
  intros Hk Hs. unfold in_sync in *. unfold useTasks.addTask.
  pose proof (addTask_keyed ok env taskData _ Hk) as Hk'.
  destruct (database.addTask ok env taskData (useTasks.db st))
    as [[task|e] db'] eqn:Hadd; simpl in *.
  - split; [done|]. unfold in_sync. simpl.
    unfold database.addTask in Hadd. destruct ok; [|discriminate].
    destruct (useTasks.db st !! _) eqn:Hfree; [discriminate|].
    injection Hadd as <- <-. rewrite getAll_insert_fresh by done.
    by rewrite Hs.
  - split; [done|]. unfold in_sync. simpl.
    unfold database.addTask in Hadd. destruct ok; [|by injection Hadd as _ <-].
    destruct (useTasks.db st !! _); [|discriminate].
    by injection Hadd as _ <-.
Qed.

Lemma updateTask_invariant ok now taskId updates st :
  keyed (useTasks.db st) → in_sync st →
  keyed (useTasks.db (useTasks.updateTask ok now taskId updates st).2) ∧
  in_sync (useTasks.updateTask ok now taskId updates st).2.
Proof.
  intros Hk Hs. unfold in_sync in *. unfold useTasks.updateTask.
  pose proof (updateTask_keyed ok now taskId updates _ Hk) as Hk'.
  destruct (database.updateTask ok now taskId updates (useTasks.db st))
    as [[data|e] db'] eqn:Hup; simpl in *.
  - split; [done|]. unfold in_sync. simpl.
    unfold database.updateTask in Hup. destruct ok; [|discriminate].
    destruct (useTasks.db st !! taskId) as [old|] eqn:Hold; [|discriminate].
    injection Hup as <- <-. rewrite (Hk taskId old Hold).
    rewrite <- insert_delete_eq.
    rewrite getAll_insert_fresh by apply lookup_delete_eq.
    rewrite Hs, (getAll_delete _ taskId old Hold). simpl.
    rewrite decide_True by (by apply (Hk taskId old)).
    apply Permutation_skip. perm_by_eq.
    rewrite <- (list_fmap_id (database.getAll (delete taskId (useTasks.db st))))
      at 2.
    apply list_fmap_ext. intros i t Hi.
    assert (t ∈ database.getAll (delete taskId (useTasks.db st))) as Hin.
    { apply list_elem_of_lookup. eauto. }
    apply getAll_elem in Hin as [k Hget].
    apply lookup_delete_Some in Hget as [Hne Hget].
    rewrite decide_False; [done|]. by rewrite (Hk k t Hget).
  - split; [done|]. unfold in_sync. simpl.
    unfold database.updateTask in Hup. destruct ok; [|by injection Hup as _ <-].
    destruct (useTasks.db st !! taskId); [discriminate|].
    by injection Hup as _ <-.
Qed.

Lemma deleteTask_invariant ok taskId st :
  keyed (useTasks.db st) → in_sync st →
  keyed (useTasks.db (useTasks.deleteTask ok taskId st).2) ∧
  in_sync (useTasks.deleteTask ok taskId st).2.
Proof.
  intros Hk Hs. unfold in_sync in *. unfold useTasks.deleteTask, database.deleteTask.
  destruct ok; simpl; [|done].
  split; [by apply map_Forall_delete|]. unfold in_sync. simpl.
  destruct (useTasks.db st !! taskId) as [old|] eqn:Hold.
  - rewrite Hs, (getAll_delete _ taskId old Hold).
    rewrite filter_cons_False by (intros Hne; by apply Hne, (Hk taskId old)).
    perm_by_eq. apply filter_all.
    apply Forall_forall. intros t [k Hget]%getAll_elem.
    apply lookup_delete_Some in Hget as [Hne Hget].
    by rewrite (Hk k t Hget).
  - rewrite delete_id by done. rewrite <- Hs.
    perm_by_eq. apply filter_all.
    apply Forall_forall. intros t Hin Heq.
    pose proof (in_sync_elem st t Hk Hs Hin) as Hget. congruence.
Qed.

Lemma act_invariant st a :
  keyed (useTasks.db st) → in_sync st →
  keyed (useTasks.db (act st a)) ∧ in_sync (act st a).
Proof.
  intros Hk Hs. destruct a as [ok [| env d | now k u | k | now k c]]; simpl.
  - by apply fetchTasks_invariant.
  - by apply addTask_invariant.
  - by apply updateTask_invariant.
  - by apply deleteTask_invariant.
  - by apply updateTask_invariant.
Qed.

Lemma acts_invariant actions : ∀ st,
  keyed (useTasks.db st) → in_sync st →
  keyed (useTasks.db (acts st actions)) ∧ in_sync (acts st actions).
Proof.
  induction actions as [|a actions IH]; intros st Hk Hs; [done|].
  destruct (act_invariant st a Hk Hs). by apply IH.
Qed.

End TaskState.

(** X4. Once an instance of [useTasks] has fetched the list, it stays
    consistent with the store: whatever the store held (each record under
    its id, as the key path has it) and whatever the list held before, after
    a fetch that resolves and any further sequence of fetches, additions,
    updates, deletions and toggles of this instance, whichever of their store
    calls fail, the store keeps each record under its id and the list holds
    exactly the records of the store, with pairwise distinct ids. (The state
    before the fetch covers the mount on a store that earlier sessions
    filled, failed fetches, and changes other instances made.) *)
Theorem X4_task_state_stays_in_sync `{host : JsHost}
    (st0 : useTasks.State) (actions : list (bool * Action)) :
  keyed (useTasks.db st0) →
  let st := acts st0 ((true, Fetch) :: actions) in
  keyed (useTasks.db st) ∧
  useTasks.tasks st ≡ₚ database.getAll (useTasks.db st) ∧
  NoDup (id <$> useTasks.tasks st) ∧
  length (useTasks.tasks st) = size (useTasks.db st).
Proof.
  intros Hk0.
  destruct (acts_invariant actions (act st0 (true, Fetch))) as [Hk Hs].
  { done. }
  { unfold in_sync. simpl. apply sort_perm. }
  simpl. split_and!; [done | done | |].
  - rewrite Hs. by apply getAll_NoDup_ids.
  - rewrite Hs. unfold database.getAll.
    by rewrite length_fmap, length_map_to_list.
Qed.

Lemma X4_task_state_stays_in_sync_witness :
  keyed (useTasks.db (acts (host := utc.host) (initialState two_tasks)
                        ((true, Fetch) :: session))) ∧
  useTasks.tasks (acts (host := utc.host) (initialState two_tasks)
                    ((true, Fetch) :: session))
  ≡ₚ database.getAll
       (useTasks.db (acts (host := utc.host) (initialState two_tasks)
                       ((true, Fetch) :: session))) ∧
  NoDup (id <$> useTasks.tasks
                  (acts (host := utc.host) (initialState two_tasks)
                     ((true, Fetch) :: session))) ∧
  length (useTasks.tasks (acts (host := utc.host) (initialState two_tasks)
                            ((true, Fetch) :: session)))
  = size (useTasks.db (acts (host := utc.host) (initialState two_tasks)
                         ((true, Fetch) :: session))).
Proof.
  apply (X4_task_state_stays_in_sync (host := utc.host)
           (initialState two_tasks) session).
  unfold keyed. by_decide.
Defined.

(** Before a fetch resolves the list does not follow the store: on a store
    that holds two tasks, when the fetch on mount fails and a task is added,
    the list shows the new task alone. *)
Example unfetched_list_misses_stored_tasks :
  useTasks.tasks (acts (host := utc.host) (initialState two_tasks)
                    [(false, Fetch); (true, Add bank_clock bank_data)])
  = [bank] ∧
  useTasks.db (acts (host := utc.host) (initialState two_tasks)
                 [(false, Fetch); (true, Add bank_clock bank_data)])
  = three_tasks.
Proof. split; vm_compute; reflexivity. Qed.

(** The list of a second instance over the same store (the modal mounts its
    own [useTasks]) is the list of its last fetch: after the first instance
    has added a task, the store holds three tasks and the second instance
    still lists two, until it fetches again. *)
Example second_instance_lists_its_last_fetch :
  let modal := acts (host := utc.host) (initialState two_tasks)
                 [(true, Fetch)] in
  let app := acts (host := utc.host) (initialState two_tasks)
               [(true, Fetch); (true, Add bank_clock bank_data)] in
  useTasks.tasks modal = [groceries; rent] ∧
  useTasks.db app = three_tasks ∧
  useTasks.tasks (useTasks.fetchTasks (host := utc.host) true
                    (useTasks.mkState (useTasks.db app) (useTasks.tasks modal)))
  = [bank; groceries; rent].
Proof. split_and!; vm_compute; reflexivity. Qed.

(** ** Acknowledged reminders *)

Section Acknowledged.
Context `{host : JsHost}.

Lemma act_keyed st a : keyed (useTasks.db st) → keyed (useTasks.db (act st a)).
Proof.
  intros Hk. destruct a as [ok [| env d | now k u | k | now k c]]; simpl.
  - unfold useTasks.fetchTasks, database.getAllTasks. by destruct ok.
  - unfold useTasks.addTask.
    pose proof (addTask_keyed ok env d _ Hk).
    by destruct (database.addTask ok env d (useTasks.db st)) as [[?|?] ?].
  - unfold useTasks.updateTask.
    pose proof (updateTask_keyed ok now k u _ Hk).
    by destruct (database.updateTask ok now k u (useTasks.db st)) as [[?|?] ?].
  - unfold useTasks.deleteTask.
    pose proof (deleteTask_keyed ok k _ Hk).
    by destruct (database.deleteTask ok k (useTasks.db st)) as [[?|?] ?].
  - unfold useTasks.toggleComplete, useTasks.updateTask.
    pose proof (updateTask_keyed ok now k
      (mkPartial None None None None None (Some c) None None None) _ Hk).
    by destruct (database.updateTask ok now k _ (useTasks.db st)) as [[?|?] ?].
Qed.

Lemma updateTask_acknowledged ok now taskId' updates taskId st :
  keyed (useTasks.db st) → acknowledged taskId st →
  p_reminder_shown updates ≠ Some false →
  acknowledged taskId (useTasks.updateTask ok now taskId' updates st).2.
Proof.
  destruct st as [db tasks]. simpl.
  intros Hk Hack Hkeep. pose proof Hack as [(task & Hget & Hshown) Hlist].
  unfold useTasks.updateTask, database.updateTask. simpl in *.
  destruct ok; [|done].
  destruct (db !! taskId') as [old|] eqn:Hold; [|done].
  pose proof (Hk taskId' old Hold) as Hid. simpl. rewrite Hid.
  set (data := {| id := taskId' |}).
  assert (taskId' = taskId → reminder_shown data = true) as Hdata.
  { intros ->. simpl. rewrite Hget in Hold. injection Hold as <-.
    rewrite Hshown. destruct (p_reminder_shown updates) as [[|]|]; done. }
  split; simpl.
  - destruct (decide (taskId' = taskId)) as [Heq | Hne].
    + exists data. subst taskId'. split; [apply lookup_insert_eq | auto].
    + exists task. by rewrite lookup_insert_ne.
  - intros t (t0 & -> & Hin)%list_elem_of_fmap_1 Hidt.
    destruct (decide (id t0 = taskId')); [|by apply Hlist].
    apply Hdata. done.
Qed.

Lemma act_acknowledged st a taskId :
  keyed (useTasks.db st) → acknowledged taskId st →
  keeps_acknowledged taskId a → acknowledged taskId (act st a).
Proof.
  intros Hk Hack Hkeep.
  destruct a as [ok [| env d | now k u | k | now k c]];
    unfold keeps_acknowledged in Hkeep; simpl in Hkeep;
    [| | by apply updateTask_acknowledged | | by apply updateTask_acknowledged];
    destruct st as [db tasks];
    pose proof Hack as [(task & Hget & Hshown) Hlist]; simpl in *.
  - unfold useTasks.fetchTasks, database.getAllTasks.
    destruct ok; [|done]. split; simpl; [eauto|].
    intros t Hin Hid. rewrite sort_perm in Hin.
    apply getAll_elem in Hin as [key Hkey].
    rewrite (Hk key t Hkey) in Hid. subst key. congruence.
  - unfold useTasks.addTask, database.addTask.
    cbn [useTasks.db useTasks.tasks]. destruct ok; [|done].
    set (newId := "task_" +:+ _).
    destruct (db !! newId) eqn:Hfree; simpl; [done|]. split; simpl.
    + exists task. rewrite lookup_insert_ne; [done|]. congruence.
    + intros t [-> | Hin]%elem_of_cons Hid; [|by apply Hlist].
      simpl in Hid. congruence.
  - unfold useTasks.deleteTask, database.deleteTask.
    cbn [useTasks.db useTasks.tasks]. destruct ok; [|done].
    split; simpl.
    + exists task. by rewrite lookup_delete_ne.
    + intros t [_ Hin]%list_elem_of_filter. by apply Hlist.
Qed.

End Acknowledged.

(** X9. Nothing in the task state ever clears an acknowledged reminder
    short of deleting the task: once the store holds a task with
    [reminder_shown] set (the store keeping each record under its id) and the
    list shows that id with [reminder_shown] set, this remains so after every
    sequence of fetches, additions, toggles, deletions of other tasks and
    updates that do not write [reminder_shown: false], failed or not. *)
Theorem X9_acknowledged_reminder_stays `{host : JsHost}
    (taskId : string) (actions : list (bool * Action))
    (st : useTasks.State) :
  keyed (useTasks.db st) →
  acknowledged taskId st →
  Forall (keeps_acknowledged taskId) actions →
  acknowledged taskId (acts st actions).
Proof.
  intros Hk Hack Hkeep. revert st Hk Hack.
  induction Hkeep as [|a actions Ha _ IH]; intros st Hk Hack; [done|].
  apply IH; [by apply act_keyed | by apply act_acknowledged].
Qed.

Lemma X9_acknowledged_reminder_stays_witness :
  acknowledged "task_1"
    (acts (host := utc.host)
       (useTasks.mkState {[ "task_1" := rent_reminded ]} [rent_reminded])
       [(true, Toggle "2024-01-01T09:00:09.500Z" "task_1" true);
        (true, Add bank_clock bank_data);
        (false, Fetch);
        (true, Toggle "2024-01-01T09:00:19.000Z" "task_1" false);
        (true, Delete "task_1704099000000_k3j9x2m1q");
        (true, Fetch)]).
Proof.
  apply (X9_acknowledged_reminder_stays (host := utc.host)).
  - by_decide.
  - split.
    + exists rent_reminded. split; reflexivity.
    + intros task Hin _. apply list_elem_of_singleton in Hin as ->.
      reflexivity.
  - repeat constructor; simpl; discriminate.
Defined.

(** ** The order of the list *)

Section ListOrder.
Context `{host : JsHost}.

#[local] Instance newest_first_trans : Transitive newest_first.
Proof.
  intros a b c (ta & tb & Ha & Hb & Hab) (tb' & tc & Hb' & Hc & Hbc).
  rewrite Hb in Hb'. injection Hb' as <-.
  exists ta, tc. split_and!; [done..|lia].
Qed.

Lemma newest_first_created_at a a' b b' :
  created_at a' = created_at a → created_at b' = created_at b →
  newest_first a b → newest_first a' b'.
Proof. unfold newest_first. by intros -> ->. Qed.

Lemma StronglySorted_fmap_created_at (f : Task → Task) (l : list Task) :
  Forall (λ t, created_at (f t) = created_at t) l →
  StronglySorted newest_first l → StronglySorted newest_first (f <$> l).
Proof.
  intros Hf Hs. induction Hs as [|x l Hs IH Hx]; [constructor|].
  apply Forall_cons in Hf as [Hfx Hf]. rewrite fmap_cons.
  constructor; [by apply IH|].
  apply Forall_fmap, Forall_forall. intros y Hy. simpl.
  rewrite Forall_forall in Hx, Hf.
  apply (newest_first_created_at x _ y); [done | by apply Hf | by apply Hx].
Qed.

Lemma StronglySorted_filter_list {A} (R : relation A) (P : A → Prop)
    `{∀ x, Decision (P x)} (l : list A) :
  StronglySorted R l → StronglySorted R (filter P l).
Proof.
  induction 1 as [|x l Hs IH Hx]; [constructor|].
  rewrite filter_cons. destruct (decide (P x)); [|done].
  constructor; [done|].
  apply Forall_forall. intros y [_ Hy]%list_elem_of_filter.
  rewrite Forall_forall in Hx. by apply Hx.
Qed.

End ListOrder.

(** X10. The list of [useTasks] stays newest created first without a new
    fetch. In a consistent state (the store keeps each record under its id
    and the list holds its records) whose list is ordered newest first, it is
    still so after a fetch of a store whose [created_at] strings are dates,
    after an addition made no earlier than the tasks of the list, after an
    update that leaves [created_at] alone, after a deletion and after a
    toggle, whether the store call fails or not. *)
Theorem X10_list_stays_newest_first `{host : JsHost}
    (st : useTasks.State) (a : bool * Action) :
  keyed (useTasks.db st) → in_sync st →
  StronglySorted newest_first (useTasks.tasks st) →
  keeps_order st a →
  StronglySorted newest_first (useTasks.tasks (act st a)).
Proof.
  intros Hk Hs Hsorted Hkeep.
  assert (∀ ok now taskId updates,
            p_created_at updates = None →
            StronglySorted newest_first
              (useTasks.tasks (useTasks.updateTask ok now taskId updates st).2))
    as Hupdate.
  { intros ok now taskId updates Hnone.
    unfold useTasks.updateTask, database.updateTask. destruct ok; [|done].
    destruct (useTasks.db st !! taskId) as [old|] eqn:Hold; [|done].
    simpl. apply StronglySorted_fmap_created_at; [|done].
    apply Forall_forall. intros t Hin.
    destruct (decide (id t = taskId)) as [Hid|]; [|done].
    simpl. rewrite Hnone. simpl.
    pose proof (in_sync_elem st t Hk Hs Hin) as Hget.
    rewrite Hid, Hold in Hget. by injection Hget as ->. }
  destruct a as [ok [| env d | now k u | k | now k c]];
    unfold keeps_order in Hkeep; simpl in Hkeep; simpl.
  - unfold useTasks.fetchTasks, database.getAllTasks. destruct ok; [|done].
    simpl. apply Sorted_StronglySorted; [apply newest_first_trans|].
    apply sort_Sorted. by apply getAll_valid.
  - destruct Hkeep as (tn & Hnow & Hold).
    unfold useTasks.addTask, database.addTask. destruct ok; [|done].
    set (newId := "task_" +:+ _).
    destruct (useTasks.db st !! newId); [done|]. simpl.
    constructor; [done|]. apply Forall_forall. intros t Hin.
    destruct (Hold t Hin) as (tt & Ht & Hle).
    exists tn, tt. by split_and!.
  - by apply Hupdate.
  - unfold useTasks.deleteTask, database.deleteTask. destruct ok; [|done].
    simpl. by apply StronglySorted_filter_list.
  - by apply Hupdate.
Qed.

Lemma X10_list_stays_newest_first_witness :
  StronglySorted (newest_first (host := utc.host))
    (useTasks.tasks
       (act (host := utc.host)
          (useTasks.mkState two_tasks [groceries; rent])
          (true, Add bank_clock bank_data))).
Proof.
  apply (X10_list_stays_newest_first (host := utc.host)
           (useTasks.mkState two_tasks [groceries; rent])
           (true, Add bank_clock bank_data)).
  - by_decide.
  - unfold in_sync. vm_compute. apply Permutation_swap.
  - repeat constructor. exists 1704025800000, 1704016800000.
    split_and!; [reflexivity | reflexivity | lia].
  - exists 1704099000000. split; [reflexivity|].
    intros task Hin. simpl in Hin.
    rewrite !elem_of_cons, elem_of_nil in Hin.
    destruct Hin as [-> | [-> | []]].
    + exists 1704025800000. split; [reflexivity | lia].
    + exists 1704016800000. split; [reflexivity | lia].
Defined.

(** * Further properties of the reminder scanner *)

(** ** Due fields that cannot be read *)

Lemma length_split sep s : length (split sep s) = S (occurrences sep s).
Proof.
  induction s as [|c s IH]; [done|]. simpl.
  destruct (Ascii.eqb c sep); simpl; [by rewrite IH|].
  destruct (split sep s) as [|cur more]; simpl in *; [discriminate | done].
Qed.

Lemma due_unreadable_no_timestamp `{host : JsHost} (task : Task) :
  due_unreadable task → dueTimestamp task = None.
Proof.
  unfold due_unreadable, dueTimestamp, dueTimeMs.
  destruct (due_date task) as [date|]; [|done].
  destruct (due_time task) as [time|]; [|done].
  pose proof (length_split "-" date) as Hd.
  pose proof (length_split ":" time) as Ht.
  intros [Hlt | Hzero].
  - destruct (split "-" date) as [|? [|? [|? ?]]]; simpl in *; try done; lia.
  - destruct (split ":" time) as [|? [|? ?]]; simpl in *; try lia.
    by destruct (Number <$> split "-" date) as [|? [|? [|? ?]]].
Qed.

Lemma no_timestamp_never_selected `{host : JsHost} (task : Task) h evs :
  dueTimestamp task = None → ¬ selected (run h evs).2 task.
Proof.
  intros Hnone Hsel.
  apply run_sound in Hsel as (tasks & t & now & _ & _ & He & Hd).
  unfold deliver in Hd. rewrite !elem_of_cons in Hd.
  destruct Hd as [[= ->] | [[=] | []%elem_of_nil]].
  destruct He as (_ & _ & _ & _ & T & HT & _). congruence.
Qed.

(** X2. A task whose due fields cannot be read never gets a reminder, on
    any host: when the due date or the due time is missing or empty, the
    date has fewer than two hyphens or the time has no colon, the scanner
    never notifies the task, whatever lists and times it runs on. *)
Theorem X2_unreadable_due_never_fires `{host : JsHost}
    (task : Task) (h : Hook) (evs : list Event) :
  due_unreadable task → ¬ selected (run h evs).2 task.
Proof.
  intros Hbad. by apply no_timestamp_never_selected, due_unreadable_no_timestamp.
Qed.

Lemma X2_unreadable_due_never_fires_witness :
  ¬ selected
      (run (host := utc.host) (mkHook initialRefs [])
         [TasksChanged
            [spread rent
               (mkPartial None None None None (Some (Some "0900")) None None
                  None None)] nine;
          Tick (nine + 1000)]).2
      (spread rent
         (mkPartial None None None None (Some (Some "0900")) None None None
            None)).
Proof.
  apply (X2_unreadable_due_never_fires (host := utc.host)).
  right. reflexivity.
Defined.



(** ** The calls of a run *)

Lemma deliveries_paired (sel : list Task) : ∀ (k : nat) task,
  (sel ≫= deliver) !! k = Some (onReminderTriggered task) →
  (sel ≫= deliver) !! S k = Some (updateTask (id task) shown).
Proof.
  induction sel as [|t sel IH]; intros k task Hk; [done|].
  rewrite bind_cons in *. unfold deliver at 1 in Hk. unfold deliver at 1.
  destruct k as [|[|k]]; simpl in *.
  - by injection Hk as ->.
  - discriminate.
  - by apply IH.
Qed.

(** X11. No notification goes unacknowledged: in every run of the hook,
    each [onReminderTriggered] call is followed at once by the [updateTask]
    call that writes [{ reminder_shown: true }] for the same task, so the
    calls of a run come in pairs. *)
Theorem X11_notification_followed_by_write `{host : JsHost}
    (h : Hook) (evs : list Event) (k : nat) (task : Task) :
  (run h evs).2 !! k = Some (onReminderTriggered task) →
  (run h evs).2 !! S k = Some (updateTask (id task) shown) ∧
  length (run h evs).2 = (2 * length (notifications (run h evs).2))%nat.
Proof.
  destruct (run_shape evs h) as [sel ->]. intros Hk.
  split; [by apply deliveries_paired|].
  clear. induction sel as [|t sel IH]; [done|].
  rewrite bind_cons. unfold deliver at 1 3. simpl.
  change (mbind deliver sel) with (sel ≫= deliver). rewrite IH. lia.
Qed.

Lemma X11_notification_followed_by_write_witness :
  (run (host := utc.host) (mkHook initialRefs [])
     [TasksChanged [rent; groceries] (nine + 5000)]).2 !! 3%nat
  = Some (updateTask (id groceries) shown) ∧
  length
    (run (host := utc.host) (mkHook initialRefs [])
       [TasksChanged [rent; groceries] (nine + 5000)]).2
  = (2 * length
           (notifications
              (run (host := utc.host) (mkHook initialRefs [])
                 [TasksChanged [rent; groceries] (nine + 5000)]).2))%nat.
Proof.
  apply (X11_notification_followed_by_write (host := utc.host)
           (mkHook initialRefs [])
           [TasksChanged [rent; groceries] (nine + 5000)] 2 groceries).
  reflexivity.
Defined.

(** ** At most one reminder *)

Section AtMostOnce.
Context `{host : JsHost}.

Lemma filter_none {A} (P : A → Prop) `{∀ x, Decision (P x)} (l : list A) :
  Forall (λ x, ¬ P x) l → filter P l = [].
Proof.
  induction 1 as [|x l Hx _ IH]; [done|]. by rewrite filter_cons_False.
Qed.

Lemma notifications_app calls1 calls2 :
  notifications (calls1 ++ calls2) = notifications calls1 ++ notifications calls2.
Proof. apply omap_app. Qed.

Lemma notifications_elem calls task :
  task ∈ notifications calls ↔ selected calls task.
Proof.
  unfold notifications, selected. rewrite list_elem_of_omap. split.
  - intros (c & Hc & Hsome). destruct c; [|done]. by injection Hsome as ->.
  - intros Hin. by exists (onReminderTriggered task).
Qed.

Lemma count_zero taskId calls :
  (∀ c, c ∈ calls → call_id c ≠ taskId) → notified_times taskId calls = 0%nat.
Proof.
  intros Hsilent. unfold notified_times.
  rewrite filter_none; [done|].
  apply Forall_forall. intros task Hin%notifications_elem Hid.
  by apply (Hsilent (onReminderTriggered task)).
Qed.

Lemma forEach_once now tasks taskId : ∀ checked,
  (notified_times taskId (forEach now checked tasks).2 ≤ 1)%nat.
Proof.
  unfold notified_times.
  induction tasks as [|task rest IH]; intros checked; [simpl; lia|].
  rewrite forEach_cons. cbn [snd]. rewrite visit_spec.
  destruct (decide (id task ∈ checked)); simpl; [apply IH|].
  destruct (eligible_dec now task); simpl; [|apply IH].
  rewrite filter_cons. destruct (decide (id task = taskId)) as [Hid|]; [|apply IH].
  simpl. fold (notified_times taskId (forEach now ({[id task]} ∪ checked) rest).2).
  rewrite count_zero; [lia|].
  intros c Hc Heq. apply forEach_sound in Hc as (t & _ & _ & Hnot & Hd).
  apply Hnot. apply elem_of_union. left. apply elem_of_singleton.
  unfold deliver in Hd. rewrite !elem_of_cons in Hd.
  destruct Hd as [-> | [-> | []%elem_of_nil]]; simpl in Heq; congruence.
Qed.

Lemma checkReminders_once refs tasks now taskId :
  (notified_times taskId (checkReminders refs tasks now).2 ≤ 1)%nat.
Proof.
  destruct (checkReminders_cases refs tasks now) as [-> | ->]; simpl.
  - unfold notified_times. simpl. lia.
  - apply forEach_once.
Qed.

Lemma run_once evs : ∀ h taskId,
  (∀ snapshot t, snapshot ∈ snapshots evs → t ∈ snapshot →
                 id t = taskId → completed t = false) →
  (notified_times taskId (run h evs).2 ≤ 1)%nat.
Proof.
  induction evs as [|ev evs IH]; intros h taskId Hsnap; [unfold notified_times; simpl; lia|].
  rewrite run_cons. cbn [snd]. unfold notified_times.
  rewrite notifications_app, filter_app, length_app.
  fold (notified_times taskId (step h ev).2) (notified_times taskId (run (step h ev).1 evs).2).
  assert (∀ snapshot t, snapshot ∈ snapshots evs → t ∈ snapshot →
                        id t = taskId → completed t = false) as Hrest.
  { intros snapshot t Hin. apply Hsnap.
    destruct ev; simpl; [by apply list_elem_of_further | done]. }
  destruct (decide (notified_times taskId (step h ev).2 = 0%nat)) as [-> | Hfired].
  { specialize (IH (step h ev).1 taskId Hrest). lia. }
  assert (taskId ∈ checkedTasksRef (refs (step h ev).1)) as Hin.
  { assert (∃ task, selected (step h ev).2 task ∧ id task = taskId)
      as (task & Hsel & Hid).
    { unfold notified_times in Hfired.
      destruct (filter _ (notifications (step h ev).2)) as [|task l] eqn:Hf;
        [done|].
      assert (task ∈ filter (λ task, id task = taskId)
                       (notifications (step h ev).2)) as Hin.
      { rewrite Hf. apply list_elem_of_here. }
      apply list_elem_of_filter in Hin as [Hid Hin%notifications_elem]. eauto. }
    rewrite step_calls in Hsel.
    destruct ev as [tasks now | now].
    - rewrite step_TasksChanged. cbn [fst refs].
      apply resetCompleted_checked. split.
      + apply checkReminders_checked. right. eauto.
      + intros (t & Ht & Hc & Hidt).
        rewrite (Hsnap tasks t) in Hc; [done | | done..].
        simpl. apply list_elem_of_here.
    - rewrite step_Tick. cbn [fst refs].
      apply checkReminders_checked. right. eauto. }
  destruct (run_handled evs (step h ev).1 taskId Hin Hrest) as [_ Hsilent].
  rewrite (count_zero taskId (run (step h ev).1 evs).2) by done.
  rewrite step_calls. pose proof (checkReminders_once (refs h) (scanned h ev)
    (event_time ev) taskId). lia.
Qed.

End AtMostOnce.

(** X12. At most one reminder per task: over any run of the hook, from any
    state of its refs, the scanner notifies at most one task of a given id,
    provided no task list it is given shows a task of that id completed
    (which would release the handled marker). This holds whether or not the
    [reminder_shown] writes succeed. *)
Theorem X12_at_most_one_notification `{host : JsHost}
    (h : Hook) (evs : list Event) (taskId : string) :
  (∀ snapshot t, snapshot ∈ snapshots evs → t ∈ snapshot →
                 id t = taskId → completed t = false) →
  (notified_times taskId (run h evs).2 ≤ 1)%nat.
Proof. apply run_once. Qed.

Lemma X12_at_most_one_notification_witness :
  (notified_times "task_1"
     (run (host := utc.host) (mkHook initialRefs [])
        [TasksChanged [rent; groceries] nine; Tick (nine + 1000);
         TasksChanged [groceries; rent] (nine + 2000);
         Tick (nine + 3000)]).2
   ≤ 1)%nat.
Proof.
  apply (X12_at_most_one_notification (host := utc.host)).
  intros snapshot t Hin Ht _. simpl in Hin.
  rewrite !elem_of_cons, elem_of_nil in Hin.
  destruct Hin as [-> | [-> | []]];
    rewrite !elem_of_cons, elem_of_nil in Ht;
    by destruct Ht as [-> | [-> | []]].
Defined.

(** ** The refs of the hook *)

Lemma NoDup_ids_inj (tasks : list Task) s t :
  NoDup (id <$> tasks) → s ∈ tasks → t ∈ tasks → id s = id t → s = t.
Proof.
  intros Hnd [i Hi]%list_elem_of_lookup [j Hj]%list_elem_of_lookup Hid.
  assert (i = j) as ->; [|congruence].
  apply (NoDup_lookup (id <$> tasks) i j (id s)); [done | |].
  - by rewrite list_lookup_fmap, Hi.
  - by rewrite list_lookup_fmap, Hj, Hid.
Qed.

Section Refs.
Context `{host : JsHost}.

Lemma checkReminders_lastCheckTime refs tasks now :
  lastCheckTimeRef (checkReminders refs tasks now).1 = lastCheckTimeRef refs ∨
  (lastCheckTimeRef (checkReminders refs tasks now).1 = now ∧
   lastCheckTimeRef refs + 1000 <= now).
Proof.
  destruct (Z.lt_ge_cases (now - lastCheckTimeRef refs) 1000).
  - left. by rewrite checkReminders_throttled.
  - right. rewrite checkReminders_evaluates by done. simpl. lia.
Qed.

Lemma step_lastCheckTime h ev :
  lastCheckTimeRef (refs (step h ev).1) = lastCheckTimeRef (refs h) ∨
  (lastCheckTimeRef (refs (step h ev).1) = event_time ev ∧
   lastCheckTimeRef (refs h) + 1000 <= event_time ev).
Proof.
  destruct ev as [tasks now | now].
  - rewrite step_TasksChanged. cbn [fst refs event_time].
    rewrite resetCompleted_lastCheckTime.
    apply checkReminders_lastCheckTime.
  - rewrite step_Tick. cbn [fst refs event_time].
    apply checkReminders_lastCheckTime.
Qed.

(** Two handled sets that agree on the ids of the uncompleted tasks of a
    list make the scan of the list issue the same calls. *)
Lemma forEach_agree now tasks : ∀ (checked checked' : gset string),
  (∀ task, task ∈ tasks → completed task = false →
           id task ∈ checked ↔ id task ∈ checked') →
  (forEach now checked tasks).2 = (forEach now checked' tasks).2.
Proof.
  induction tasks as [|task rest IH]; intros checked checked' Hagree; [done|].
  rewrite !forEach_cons. cbn [snd].
  destruct (eligible_dec now task) as [He | Hne].
  - pose proof He as (_ & _ & Hc & _).
    specialize (Hagree task (list_elem_of_here _ _) Hc) as Hhere.
    destruct (decide (id task ∈ checked)) as [Hin | Hnot].
    + rewrite !visit_skipped by tauto. simpl. apply IH.
      intros t Ht. apply Hagree. by apply list_elem_of_further.
    + rewrite !visit_selected by tauto. simpl. do 2 f_equal. apply IH.
      intros t Ht Hct. rewrite !elem_of_union.
      specialize (Hagree t (list_elem_of_further _ _ _ Ht) Hct). tauto.
  - rewrite !visit_skipped by tauto. simpl. apply IH.
    intros t Ht. apply Hagree. by apply list_elem_of_further.
Qed.

End Refs.

(** X13. The time of the last evaluation never goes back: along any run of
    the hook [lastCheckTimeRef] only grows, each change being to the time of
    an invocation at least 1000 ms later than the value it replaces; an
    invocation whose clock reads less than that (also a clock set back) leaves
    it alone. *)
Theorem X13_last_check_time_never_goes_back `{host : JsHost}
    (h : Hook) (evs : list Event) :
  lastCheckTimeRef (refs h) <= lastCheckTimeRef (refs (run h evs).1) ∧
  (lastCheckTimeRef (refs (run h evs).1) = lastCheckTimeRef (refs h) ∨
   ∃ ev, ev ∈ evs ∧ lastCheckTimeRef (refs (run h evs).1) = event_time ev ∧
         lastCheckTimeRef (refs h) + 1000 <= event_time ev).
Proof.
  revert h. induction evs as [|ev evs IH]; intros h.
  - simpl. split; [lia | by left].
  - rewrite run_cons. cbn [fst].
    destruct (IH (step h ev).1) as [Hle Hlast].
    destruct (step_lastCheckTime h ev) as [Heq | [Heq Hgap]].
    + rewrite Heq in *. split; [done|].
      destruct Hlast as [? | (ev' & Hin & ? & ?)]; [by left|].
      right. exists ev'. split_and!; [by apply list_elem_of_further | done..].
    + split; [lia|]. right.
      destruct Hlast as [Hsame | (ev' & Hin & Hev' & Hgap')].
      * exists ev. split_and!; [apply list_elem_of_here | congruence | done].
      * exists ev'. split_and!; [by apply list_elem_of_further | done | lia].
Qed.

(** X16. The scanner itself never forgets a handled task: after an
    invocation of [checkReminders] the handled set holds exactly the ids it
    held before and the ids of the tasks this invocation notified. *)
Theorem X16_handled_set_after_check `{host : JsHost}
    (refs : Refs) (tasks : list Task) (now : Z) :
  checkedTasksRef (checkReminders refs tasks now).1
  = checkedTasksRef refs
    ∪ list_to_set (id <$> notifications (checkReminders refs tasks now).2).
Proof.
  apply set_eq. intros i.
  rewrite checkReminders_checked, elem_of_union, elem_of_list_to_set,
    list_elem_of_fmap.
  split; (intros [? | (task & ? & ?)]; [by left | right]).
  - exists task. by rewrite notifications_elem.
  - exists task. by rewrite <- notifications_elem.
Qed.

(** X15. With distinct ids, the order of the task list does not matter to
    the scanner: on a permutation of the list an invocation of
    [checkReminders] notifies the same tasks and leaves the same refs. *)
Theorem X15_check_ignores_list_order `{host : JsHost}
    (refs : Refs) (tasks1 tasks2 : list Task) (now : Z) :
  tasks1 ≡ₚ tasks2 →
  NoDup (id <$> tasks1) →
  (∀ task, selected (checkReminders refs tasks1 now).2 task
           ↔ selected (checkReminders refs tasks2 now).2 task) ∧
  (checkReminders refs tasks1 now).1 = (checkReminders refs tasks2 now).1.
Proof.
  intros Hperm Hnd1.
  assert (NoDup (id <$> tasks2)) as Hnd2 by by rewrite <- Hperm.
  destruct (Z.lt_ge_cases (now - lastCheckTimeRef refs) 1000) as [Hlt | Hge].
  { rewrite !checkReminders_throttled by done. done. }
  assert (∀ task, selected (checkReminders refs tasks1 now).2 task
                  ↔ selected (checkReminders refs tasks2 now).2 task) as Hsel.
  { intros task. rewrite !checkReminders_evaluates by done. cbn [snd].
    split; intros Hin.
    - apply forEach_sound in Hin as (t & Ht & He & Hn & Hd).
      unfold deliver in Hd. rewrite !elem_of_cons in Hd.
      destruct Hd as [[= ->] | [[=] | []%elem_of_nil]].
      apply forEach_complete; try done. by rewrite <- Hperm.
    - apply forEach_sound in Hin as (t & Ht & He & Hn & Hd).
      unfold deliver in Hd. rewrite !elem_of_cons in Hd.
      destruct Hd as [[= ->] | [[=] | []%elem_of_nil]].
      apply forEach_complete; try done. by rewrite Hperm. }
  split; [done|].
  pose proof (checkReminders_checked refs tasks1 now) as H1.
  pose proof (checkReminders_checked refs tasks2 now) as H2.
  rewrite !checkReminders_evaluates in * by done. cbn [fst snd] in *.
  f_equal. apply set_eq. intros i. rewrite H1, H2.
  by setoid_rewrite Hsel.
Qed.

Lemma X15_check_ignores_list_order_witness :
  (∀ task,
     selected
       (checkReminders (host := utc.host) initialRefs [rent; groceries; bank]
          nine).2 task
     ↔ selected
         (checkReminders (host := utc.host) initialRefs
            [bank; groceries; rent] nine).2 task) ∧
  (checkReminders (host := utc.host) initialRefs [rent; groceries; bank]
     nine).1
  = (checkReminders (host := utc.host) initialRefs [bank; groceries; rent]
       nine).1.
Proof.
  apply (X15_check_ignores_list_order (host := utc.host) initialRefs
           [rent; groceries; bank] [bank; groceries; rent] nine).
  - by_decide.
  - by_decide.
Defined.

(** X14. The order in which React runs the two effects of the hook does not
    matter: on a task list with distinct ids, forgetting the completed tasks
    before the check gives the same calls and the same refs as forgetting
    them after it. *)
Theorem X14_effects_commute `{host : JsHost}
    (refs : Refs) (tasks : list Task) (now : Z) :
  NoDup (id <$> tasks) →
  (checkReminders (resetCompleted refs tasks) tasks now).2
  = (checkReminders refs tasks now).2 ∧
  (checkReminders (resetCompleted refs tasks) tasks now).1
  = resetCompleted (checkReminders refs tasks now).1 tasks.
Proof.
  intros Hnd.
  destruct (Z.lt_ge_cases (now - lastCheckTimeRef refs) 1000) as [Hlt | Hge].
  { rewrite !checkReminders_throttled by done. done. }
  rewrite !checkReminders_evaluates by done. cbn [fst snd].
  assert ((forEach now (checkedTasksRef (resetCompleted refs tasks)) tasks).2
          = (forEach now (checkedTasksRef refs) tasks).2) as Hcalls.
  { apply forEach_agree. intros task Hin Hc.
    rewrite resetCompleted_checked. split; [tauto|]. intros Hi.
    split; [done|]. intros (t & Ht & Hct & Hid).
    rewrite (NoDup_ids_inj tasks t task Hnd Ht Hin Hid) in Hct. congruence. }
  split; [done|].
  unfold resetCompleted at 2. cbn [checkedTasksRef lastCheckTimeRef].
  f_equal. apply set_eq. intros i.
  rewrite foldl_difference.
  rewrite forEach_checked, Hcalls, forEach_checked, resetCompleted_checked.
  assert (i ∉ id <$> filter (λ task, completed task = true) tasks
          ↔ ¬ ∃ task, task ∈ tasks ∧ completed task = true ∧ id task = i)
    as ->.
  { rewrite list_elem_of_fmap. split; intros Hno.
    - intros (t & Ht & Hc & <-). apply Hno. exists t.
      split; [done|]. by apply list_elem_of_filter.
    - intros (t & -> & [Hc Ht]%list_elem_of_filter). eauto. }
  split.
  - intros [[Hi Hno] | Hsel]; [tauto|]. split; [by right|].
    destruct Hsel as (s & Hs & <-). intros (t & Ht & Hc & Hid).
    apply forEach_sound in Hs as (s' & Hs' & He & _ & Hd).
    unfold deliver in Hd. rewrite !elem_of_cons in Hd.
    destruct Hd as [[= ->] | [[=] | []%elem_of_nil]].
    destruct He as (_ & _ & Hcs & _).
    rewrite (NoDup_ids_inj tasks t s' Hnd Ht Hs' Hid) in Hc. congruence.
  - intros [[Hi | Hsel] Hno]; [left | right]; done.
Qed.

Lemma X14_effects_commute_witness :
  (checkReminders (host := utc.host)
     (resetCompleted (mkRefs {["task_1"; "task_2"]} 0) [rent_completed; groceries])
     [rent_completed; groceries] nine).2
  = (checkReminders (host := utc.host) (mkRefs {["task_1"; "task_2"]} 0)
       [rent_completed; groceries] nine).2 ∧
  (checkReminders (host := utc.host)
     (resetCompleted (mkRefs {["task_1"; "task_2"]} 0) [rent_completed; groceries])
     [rent_completed; groceries] nine).1
  = resetCompleted
      (checkReminders (host := utc.host) (mkRefs {["task_1"; "task_2"]} 0)
         [rent_completed; groceries] nine).1
      [rent_completed; groceries].
Proof.
  apply (X14_effects_commute (host := utc.host)
           (mkRefs {["task_1"; "task_2"]} 0) [rent_completed; groceries] nine).
  by_decide.
Defined.

(** * Properties of the components *)

(** ** The views of [App] *)

Lemma ltb_irrefl (s : string) : String.ltb s s = false.
Proof.
  unfold String.ltb. pose proof (String.compare_antisym s s) as Hanti.
  destruct (String.compare s s); [done | discriminate | done].
Qed.

Lemma due_today_later_disjoint todayStr task :
  App.due_today todayStr task = true → App.due_later todayStr task = false.
Proof.
  unfold App.due_today, App.due_later.
  intros [Hd _]%andb_true_iff. apply bool_decide_eq_true in Hd.
  rewrite Hd, ltb_irrefl. by rewrite andb_false_r.
Qed.

Lemma due_today_pending todayStr task :
  App.due_today todayStr task = true → completed task = false.
Proof.
  unfold App.due_today. intros [_ Hc]%andb_true_iff.
  by apply negb_true_iff in Hc.
Qed.

Lemma due_later_pending todayStr task :
  App.due_later todayStr task = true → completed task = false.
Proof.
  unfold App.due_later. destruct (due_date task); [|done].
  intros [_ Hc]%andb_true_iff. by apply negb_true_iff in Hc.
Qed.

(** X17. The counts of the sidebar against the views. Each of the two memos
    reads the clock itself: the counts were computed with the date string
    [countedOn], the view with [viewedOn]. The Inbox and Completed counts are
    the numbers of tasks their views list, whatever the two dates; the Today
    and Upcoming counts are the numbers of tasks their views list when both
    memos read the same date. Inbox and Completed split the tasks between
    them, and Today and Upcoming together count at most as many tasks as
    Inbox. *)
Theorem X17_counts_match_views (countedOn viewedOn : string)
    (tasks : list Task) :
  let counts := App.taskCounts countedOn tasks in
  (∀ view,
     view = App.Inbox ∨ view = App.Completed ∨ countedOn = viewedOn →
     App.count_of counts view
     = length (App.filteredTasks viewedOn view tasks)) ∧
  (App.n_inbox counts + App.n_completed counts = length tasks)%nat ∧
  (App.n_today counts + App.n_upcoming counts ≤ App.n_inbox counts)%nat.
Proof.
  simpl. split_and!.
  - intros view [-> | [-> | <-]]; [done | done | by destruct view].
  - induction tasks as [|t tasks IH]; [done|].
    rewrite !filter_cons. destruct (completed t) eqn:Hc.
    + rewrite decide_False, decide_True by done. simpl. lia.
    + rewrite decide_True, decide_False by done. simpl. lia.
  - induction tasks as [|t tasks IH]; [done|].
    rewrite !filter_cons.
    destruct (App.due_today countedOn t) eqn:Ht.
    + rewrite (due_today_later_disjoint _ _ Ht).
      rewrite (due_today_pending _ _ Ht).
      rewrite !decide_True, decide_False by done. simpl. lia.
    + rewrite decide_False by done.
      destruct (App.due_later countedOn t) eqn:Hl.
      * rewrite (due_later_pending _ _ Hl), !decide_True by done. simpl. lia.
      * rewrite decide_False by done. destruct (decide _); simpl; lia.
Qed.

(** The counts are computed again only when the tasks change, the view also
    when another view is chosen: with counts of 31 December and a view
    chosen on 1 January, Today counts no task and lists two, Upcoming counts
    two and lists none. *)
Example counts_lag_after_day_change :
  App.count_of (App.taskCounts "2023-12-31" [rent; groceries]) App.Today
  = 0%nat ∧
  App.filteredTasks "2024-01-01" App.Today [rent; groceries]
  = [rent; groceries] ∧
  App.count_of (App.taskCounts "2023-12-31" [rent; groceries]) App.Upcoming
  = 2%nat ∧
  App.filteredTasks "2024-01-01" App.Upcoming [rent; groceries] = [].
Proof. split_and!; vm_compute; reflexivity. Qed.

(** X18. Where a task shows: every task is in exactly one of Inbox and
    Completed; a task listed under Today or Upcoming is listed under Inbox,
    and none is listed under both; a task without due date, or whose due date
    reads before today's date string, is listed under neither. *)
Theorem X18_views_of_a_task (todayStr : string) (tasks : list Task)
    (task : Task) :
  task ∈ tasks →
  (task ∈ App.filteredTasks todayStr App.Inbox tasks
   ↔ (task ∉ App.filteredTasks todayStr App.Completed tasks)) ∧
  (task ∈ App.filteredTasks todayStr App.Today tasks
   → task ∈ App.filteredTasks todayStr App.Inbox tasks) ∧
  (task ∈ App.filteredTasks todayStr App.Upcoming tasks
   → task ∈ App.filteredTasks todayStr App.Inbox tasks) ∧
  ¬ (task ∈ App.filteredTasks todayStr App.Today tasks ∧
     task ∈ App.filteredTasks todayStr App.Upcoming tasks) ∧
  (match due_date task with
   | Some date => String.ltb date todayStr = true
   | None => True
   end →
   (task ∉ App.filteredTasks todayStr App.Today tasks) ∧
   (task ∉ App.filteredTasks todayStr App.Upcoming tasks)).
Proof.
  intros Hin. unfold App.filteredTasks. rewrite !list_elem_of_filter.
  split_and!.
  - destruct (completed task); split; intros; intuition congruence.
  - intros [Ht _]. split; [|done]. by apply (due_today_pending todayStr).
  - intros [Hl _]. split; [|done]. by apply (due_later_pending todayStr).
  - intros [[Ht _] [Hl _]].
    rewrite (due_today_later_disjoint _ _ Ht) in Hl. discriminate.
  - intros Hpast. unfold App.due_today, App.due_later.
    destruct (due_date task) as [date|]; [|split; intros [? _]; done].
    rename Hpast into Hlt. split; intros [H _].
    + apply andb_true_iff in H as [H _]. apply bool_decide_eq_true in H.
      injection H as ->. by rewrite ltb_irrefl in Hlt.
    + apply andb_true_iff in H as [[_ H]%andb_true_iff _].
      unfold String.ltb in *. rewrite String.compare_antisym in H.
      destruct (String.compare date todayStr); done.
Qed.

Lemma X18_views_of_a_task_witness :
  (rent ∈ App.filteredTasks "2024-01-02" App.Inbox [rent; rent_completed]
   ↔ (rent
      ∉ App.filteredTasks "2024-01-02" App.Completed [rent; rent_completed])) ∧
  (rent ∈ App.filteredTasks "2024-01-02" App.Today [rent; rent_completed]
   → rent ∈ App.filteredTasks "2024-01-02" App.Inbox [rent; rent_completed]) ∧
  (rent ∈ App.filteredTasks "2024-01-02" App.Upcoming [rent; rent_completed]
   → rent ∈ App.filteredTasks "2024-01-02" App.Inbox [rent; rent_completed]) ∧
  ¬ (rent ∈ App.filteredTasks "2024-01-02" App.Today [rent; rent_completed] ∧
     rent ∈ App.filteredTasks "2024-01-02" App.Upcoming [rent; rent_completed]) ∧
  (match due_date rent with
   | Some date => String.ltb date "2024-01-02" = true
   | None => True
   end →
   (rent ∉ App.filteredTasks "2024-01-02" App.Today [rent; rent_completed]) ∧
   (rent ∉ App.filteredTasks "2024-01-02" App.Upcoming [rent; rent_completed])).
Proof.
  apply (X18_views_of_a_task "2024-01-02" [rent; rent_completed] rent).
  by_decide.
Defined.
(** ** The filters of [TaskList] *)

Section ListFilters.
Context `{text : JsText}.

Lemma filter_pending_completed (l : list Task) :
  filter (λ t, completed t = false) l ++ filter (λ t, completed t = true) l
  ≡ₚ l.
Proof.
  rewrite <- (filter_app_complement (λ t, completed t = false) l) at 3.
  f_equiv. perm_by_eq. apply list_filter_iff. intros t.
  destruct (completed t); split; congruence.
Qed.

(** The search and the date filter, which every choice of the completion
    filter is followed by. *)
Lemma filteredTasks_All_app searchQuery selectedDate (l1 l2 : list Task) :
  TaskList.filteredTasks TaskList.All searchQuery selectedDate (l1 ++ l2)
  = TaskList.filteredTasks TaskList.All searchQuery selectedDate l1
    ++ TaskList.filteredTasks TaskList.All searchQuery selectedDate l2.
Proof.
  unfold TaskList.filteredTasks.
  destruct (truthy (trim searchQuery)), selectedDate; by rewrite ?filter_app.
Qed.

Lemma filteredTasks_All_perm searchQuery selectedDate (l1 l2 : list Task) :
  l1 ≡ₚ l2 →
  TaskList.filteredTasks TaskList.All searchQuery selectedDate l1
  ≡ₚ TaskList.filteredTasks TaskList.All searchQuery selectedDate l2.
Proof.
  intros Hperm. unfold TaskList.filteredTasks.
  destruct (truthy (trim searchQuery)), selectedDate; by rewrite Hperm.
Qed.

Lemma filteredTasks_by_completion filter_ searchQuery selectedDate tasks :
  TaskList.filteredTasks filter_ searchQuery selectedDate tasks
  = TaskList.filteredTasks TaskList.All searchQuery selectedDate
      (match filter_ with
       | TaskList.All => tasks
       | TaskList.Pending => filter (λ t, completed t = false) tasks
       | TaskList.Completed => filter (λ t, completed t = true) tasks
       end).
Proof. by destruct filter_. Qed.

End ListFilters.

(** X19. The filters of the task list only ever hide tasks, and the
    completion filter splits what the other filters let through: the
    filtered list is a sublist of the tasks (same order, nothing added); with
    a given search and date, the lists shown under Pending and under
    Completed together hold exactly the tasks shown under All; under All,
    with a blank search and no date picked, every task is shown. *)
Theorem X19_filters_hide_and_split `{text : JsText}
    (filter_ : TaskList.FilterType) (searchQuery : string)
    (selectedDate : option TaskList.LocalDate) (tasks : list Task) :
  TaskList.filteredTasks filter_ searchQuery selectedDate tasks
    `sublist_of` tasks ∧
  TaskList.filteredTasks TaskList.Pending searchQuery selectedDate tasks
  ++ TaskList.filteredTasks TaskList.Completed searchQuery selectedDate tasks
  ≡ₚ TaskList.filteredTasks TaskList.All searchQuery selectedDate tasks ∧
  (trim searchQuery = "" →
   TaskList.filteredTasks TaskList.All searchQuery None tasks = tasks).
Proof.
  split_and!.
  - unfold TaskList.filteredTasks.
    destruct filter_, (truthy (trim searchQuery)), selectedDate;
      repeat (etrans; [apply sublist_filter|]); done.
  - rewrite (filteredTasks_by_completion TaskList.Pending),
      (filteredTasks_by_completion TaskList.Completed).
    rewrite <- filteredTasks_All_app.
    apply filteredTasks_All_perm, filter_pending_completed.
  - intros Hblank. unfold TaskList.filteredTasks. by rewrite Hblank.
Qed.

(** A task is shown exactly when it is one of the tasks, passes the
    completion filter, matches the search (when the search is not blank, its
    lower-cased title or description holds the lower-cased query) and, when a
    date is picked, is due on that date's local date string. *)
Lemma shown_iff_passes_all_filters `{text : JsText}
    (filter_ : TaskList.FilterType) (searchQuery : string)
    (selectedDate : option TaskList.LocalDate) (tasks : list Task)
    (task : Task) :
  task ∈ TaskList.filteredTasks filter_ searchQuery selectedDate tasks
  ↔ task ∈ tasks ∧
    match filter_ with
    | TaskList.All => True
    | TaskList.Pending => completed task = false
    | TaskList.Completed => completed task = true
    end ∧
    (trim searchQuery ≠ "" →
     TaskList.matches (toLowerCase searchQuery) task = true) ∧
    match selectedDate with
    | Some date => due_date task = Some (TaskList.getLocalDateString date)
    | None => True
    end.
Proof.
  unfold TaskList.filteredTasks.
  assert (truthy (trim searchQuery) = true ↔ trim searchQuery ≠ "") as Htr.
  { by destruct (trim searchQuery). }
  destruct filter_, (truthy (trim searchQuery)) eqn:Hq, selectedDate;
    rewrite ?list_elem_of_filter; intuition congruence.
Qed.
(** ** What [trim] leaves *)

Section Trim.
Context `{text : JsText}.

Lemma trimStart_head s c rest :
  trimStart s = String c rest → isWhiteSpace c = false.
Proof.
  induction s as [|a s IH]; simpl; [done|].
  destruct (isWhiteSpace a) eqn:Ha; [done|]. by intros [= <- <-].
Qed.

Lemma trimStart_nonwhite c rest :
  isWhiteSpace c = false → trimStart (String c rest) = String c rest.
Proof. intros Hc. simpl. by rewrite Hc. Qed.

Lemma trimEnd_head c rest :
  isWhiteSpace c = false →
  ∃ kept, trimEnd (String c rest) = String c kept.
Proof.
  intros Hc. simpl. destruct (trimEnd rest); rewrite ?Hc; eauto.
Qed.

Lemma trimEnd_idemp s : trimEnd (trimEnd s) = trimEnd s.
Proof.
  induction s as [|a s IH]; [done|]. simpl.
  destruct (trimEnd s) as [|b kept] eqn:Hs.
  - destruct (isWhiteSpace a) eqn:Ha; [done|]. simpl. by rewrite Ha.
  - simpl in *. destruct (trimEnd kept) as [|b' kept'] eqn:Hk.
    + destruct (isWhiteSpace b); [done|]. by injection IH as <-.
    + by rewrite IH.
Qed.

(** Nothing is left to trim from a trimmed string. *)
Lemma trim_idemp s : trim (trim s) = trim s.
Proof.
  unfold trim. destruct (trimStart s) as [|c rest] eqn:Hs; [done|].
  pose proof (trimStart_head s c rest Hs) as Hc.
  destruct (trimEnd_head c rest Hc) as [kept Hkept]. rewrite Hkept.
  rewrite trimStart_nonwhite by done. by rewrite <- Hkept, trimEnd_idemp.
Qed.

(** [trimEnd] keeps everything up to a code unit that is not white space. *)
Lemma trimEnd_keeps p c rest :
  isWhiteSpace c = false →
  ∃ kept, trimEnd (p +:+ String c rest) = p +:+ String c kept.
Proof.
  intros Hc. induction p as [|a p [kept IH]]; simpl.
  - by apply trimEnd_head.
  - rewrite IH. exists kept. by destruct p.
Qed.

End Trim.

(** ** The modal *)

(** X20. The modal never submits a task without a title: [handleSubmit]
    returns before [onAdd] exactly when the title is blank; otherwise the
    task [addTask] makes of what it passes has the trimmed title, which is
    not empty and has no white space left to trim, and each due field is
    null or not empty. *)
Theorem X20_submitted_title_is_trimmed `{text : JsText}
    (title_ description_ dueDate dueTime : string)
    (priority : AddTaskModal.Priority) :
  (AddTaskModal.handleSubmit title_ description_ dueDate dueTime priority = None
   ↔ trim title_ = "") ∧
  ∀ taskData ok env db task db',
    AddTaskModal.handleSubmit title_ description_ dueDate dueTime priority
    = Some taskData →
    database.addTask ok env taskData db = (Resolve task, db') →
    title task = trim title_ ∧ title task ≠ "" ∧
    trim (title task) = title task ∧
    due_date task = or_undefined dueDate ∧ due_date task ≠ Some "" ∧
    due_time task = or_undefined dueTime ∧ due_time task ≠ Some "".
Proof.
  unfold AddTaskModal.handleSubmit.
  destruct (trim title_) as [|c rest] eqn:Ht; simpl.
  { split; [done|]. intros; discriminate. }
  split; [split; discriminate|].
  intros taskData ok env db task db' [= <-] Hadd.
  unfold database.addTask in Hadd. destruct ok; [|discriminate].
  destruct (db !! _); [discriminate|]. injection Hadd as <- _. simpl.
  split_and!; try done.
  - by rewrite <- Ht, trim_idemp.
  - unfold or_undefined. by destruct dueDate.
  - unfold or_undefined. by destruct dueDate.
  - unfold or_undefined. by destruct dueTime.
  - unfold or_undefined. by destruct dueTime.
Qed.

(** X21. The priority chosen in the modal is the priority the task list
    reads back. When brackets are not white space, a task submitted with
    priority high is stored with a description that starts with the tag
    [[HIGH]] and [extractPriority] reads HIGH from it, whatever the
    description typed; likewise medium and MEDIUM. With priority low no tag
    is added: the stored description is the trimmed one. *)
Theorem X21_priority_round_trip `{text : JsText}
    (title_ description_ dueDate dueTime : string)
    (priority : AddTaskModal.Priority) (taskData : database.TaskData)
    (ok : bool) (env : database.Clock) (db db' : gmap string Task)
    (task : Task) :
  isWhiteSpace "[" = false → isWhiteSpace "]" = false →
  AddTaskModal.handleSubmit title_ description_ dueDate dueTime priority
  = Some taskData →
  database.addTask ok env taskData db = (Resolve task, db') →
  match priority with
  | AddTaskModal.high => TaskList.extractPriority task = Some TaskList.HIGH
  | AddTaskModal.medium => TaskList.extractPriority task = Some TaskList.MEDIUM
  | AddTaskModal.low => description task = trim description_
  end.
Proof.
  intros Hopen Hclose Hsubmit Hadd.
  unfold AddTaskModal.handleSubmit in Hsubmit.
  destruct (truthy (trim title_)); [|discriminate]. simpl in Hsubmit.
  injection Hsubmit as <-.
  unfold database.addTask in Hadd. destruct ok; [|discriminate].
  destruct (db !! _); [discriminate|]. injection Hadd as <- _.
  unfold TaskList.extractPriority, startsWith. cbn [description].
  cbn [database.td_description].
  set (typed := if truthy (trim description_) then trim description_ else "").
  destruct priority; cbn [AddTaskModal.priorityPrefix].
  - assert (typed = trim description_) as ->.
    { unfold typed. by destruct (trim description_). }
    change ("" +:+ trim description_) with (trim description_).
    rewrite trim_idemp. unfold or_undefined, database.or_empty.
    by destruct (trim description_).
  - unfold trim at 1 2 3.
    change ("[MEDIUM] " +:+ typed) with (String "[" ("MEDIUM] " +:+ typed)).
    rewrite trimStart_nonwhite by done.
    destruct (trimEnd_keeps "[MEDIUM" "]" (String " " typed) Hclose)
      as [kept Hkept].
    change ("[MEDIUM" +:+ String "]" (String " " typed))
      with (String "[" ("MEDIUM] " +:+ typed)) in Hkept.
    rewrite Hkept. simpl. by destruct kept.
  - unfold trim at 1.
    change ("[HIGH] " +:+ typed) with (String "[" ("HIGH] " +:+ typed)).
    rewrite trimStart_nonwhite by done.
    destruct (trimEnd_keeps "[HIGH" "]" (String " " typed) Hclose)
      as [kept Hkept].
    change ("[HIGH" +:+ String "]" (String " " typed))
      with (String "[" ("HIGH] " +:+ typed)) in Hkept.
    rewrite Hkept. simpl. by destruct kept.
Qed.

Lemma X21_priority_round_trip_witness :
  TaskList.extractPriority
    {| id := "task_1704099000000_k3j9x2m1q";
       title := "Call the bank";
       description := "[HIGH] about the loan";
       due_date := Some "2024-01-02";
       due_time := None;
       completed := false;
       reminder_shown := false;
       created_at := "2024-01-01T08:50:00.000Z";
       updated_at := "2024-01-01T08:50:00.000Z" |}
  = Some TaskList.HIGH.
Proof.
  apply (X21_priority_round_trip (text := ascii_text.text)
           "  Call the bank " " about the loan  " "2024-01-02" ""
           AddTaskModal.high
           (database.mkTaskData "Call the bank" (Some "[HIGH] about the loan")
              (Some "2024-01-02") None)
           true bank_clock two_tasks
           (<[ "task_1704099000000_k3j9x2m1q" :=
                 {| id := "task_1704099000000_k3j9x2m1q";
                    title := "Call the bank";
                    description := "[HIGH] about the loan";
                    due_date := Some "2024-01-02";
                    due_time := None;
                    completed := false;
                    reminder_shown := false;
                    created_at := "2024-01-01T08:50:00.000Z";
                    updated_at := "2024-01-01T08:50:00.000Z" |} ]> two_tasks)).
  - reflexivity.
  - reflexivity.
  - vm_compute. reflexivity.
  - vm_compute. reflexivity.
Defined.

(** X22. The modal suggests at most six tasks, all taken from the task list
    in its order and all with a title that holds the search term, letter case
    aside; a blank search term suggests nothing. *)
Theorem X22_suggestions `{text : JsText}
    (searchTerm : string) (tasks : list Task) :
  (length (AddTaskModal.suggestions searchTerm tasks) ≤ 6)%nat ∧
  AddTaskModal.suggestions searchTerm tasks `sublist_of` tasks ∧
  (∀ task, task ∈ AddTaskModal.suggestions searchTerm tasks →
           includes (toLowerCase (title task)) (toLowerCase searchTerm)
           = true) ∧
  (trim searchTerm = "" → AddTaskModal.suggestions searchTerm tasks = []).
Proof.
  unfold AddTaskModal.suggestions.
  destruct (trim searchTerm) as [|c rest]; simpl.
  { split_and!; [lia | apply sublist_nil_l | by intros ? ?%elem_of_nil | done]. }
  split_and!; [| | |done].
  - rewrite length_take. lia.
  - etrans; [apply sublist_take | apply sublist_filter].
  - intros task Hin.
    apply (subseteq_take 6), list_elem_of_filter in Hin. tauto.
Qed.
(** ** The time a task item shows *)

(** X23. [formatTime] turns a 24-hour time into a 12-hour time without
    losing it: for a time string whose hours [parseInt] reads as [h] between
    0 and 23, it prints an hour between 1 and 12, the minutes as they are, and
    AM before noon, PM from noon on; the hour printed and the AM/PM mark
    give [h] back. *)
Theorem X23_formatTime_twelve_hour_clock `{text : JsText}
    (timeString hours minutes : string) (more : list string) (h : Z) :
  split ":" timeString = hours :: minutes :: more →
  parseInt hours = Some h →
  0 <= h <= 23 →
  ∃ displayHour ampm,
    TaskItem.formatTime (Some timeString)
    = Some (pretty displayHour +:+ ":" +:+ minutes +:+ " " +:+ ampm) ∧
    1 <= displayHour <= 12 ∧
    (ampm = "PM" ∧ 12 <= h ∨ ampm = "AM" ∧ h < 12) ∧
    h = displayHour mod 12 + (if decide (ampm = "PM") then 12 else 0).
Proof.
  intros Hsplit Hparse Hrange. unfold TaskItem.formatTime.
  assert (truthy timeString = true) as ->.
  { destruct timeString; [discriminate | done]. }
  rewrite Hsplit. simpl. rewrite Hparse.
  eexists _, _. split; [reflexivity|].
  destruct (Z.leb_spec 12 h) as [Hpm | Ham].
  - rewrite decide_True by done.
    destruct (Z.eqb_spec (Z.rem h 12) 0) as [Hz | Hnz];
      (split_and!; [| | by left |]);
      Z.to_euclidean_division_equations; lia.
  - rewrite decide_False by done.
    destruct (Z.eqb_spec (Z.rem h 12) 0) as [Hz | Hnz];
      (split_and!; [| | by right |]);
      Z.to_euclidean_division_equations; lia.
Qed.

Lemma X23_formatTime_twelve_hour_clock_witness :
  ∃ displayHour ampm,
    TaskItem.formatTime (text := ascii_text.text) (Some "18:30")
    = Some (pretty displayHour +:+ ":" +:+ "30" +:+ " " +:+ ampm) ∧
    1 <= displayHour <= 12 ∧
    (ampm = "PM" ∧ 12 <= 18 ∨ ampm = "AM" ∧ 18 < 12) ∧
    18 = displayHour mod 12 + (if decide (ampm = "PM") then 12 else 0).
Proof.
  apply (X23_formatTime_twelve_hour_clock (text := ascii_text.text)
           "18:30" "18" "30" [] 18).
  - reflexivity.
  - reflexivity.
  - lia.
Defined.

Example formatTime_evening :
  TaskItem.formatTime (text := ascii_text.text) (Some "18:30")
  = Some "6:30 PM".
Proof. vm_compute. reflexivity. Qed.

Example formatTime_midnight :
  TaskItem.formatTime (text := ascii_text.text) (Some "00:05")
  = Some "12:05 AM".
Proof. vm_compute. reflexivity. Qed.

(** X24. What [formatTime] shows for a time it cannot read: nothing for a
    missing or empty time; the hour 12 and AM whenever [parseInt] makes
    nothing of the hours (the text before the first colon, or the whole text
    when there is no colon), followed by the minutes as given, or by the
    word undefined when there is no colon; and for every non-empty time
    without a colon the word undefined for the minutes, after the hour that
    [parseInt] reads from the whole text. *)
Theorem X24_formatTime_unreadable `{text : JsText} :
  TaskItem.formatTime None = None ∧
  TaskItem.formatTime (Some "") = None ∧
  (∀ timeString hours rest,
     timeString ≠ "" →
     split ":" timeString = hours :: rest →
     parseInt hours = None →
     TaskItem.formatTime (Some timeString)
     = Some ("12:" +:+ default "undefined" (head rest) +:+ " AM")) ∧
  (∀ timeString,
     timeString ≠ "" → occurrences ":" timeString = 0%nat →
     split ":" timeString = [timeString] ∧
     TaskItem.formatTime (Some timeString)
     = Some (match parseInt timeString with
             | Some h =>
                 pretty (if Z.rem h 12 =? 0 then 12 else Z.rem h 12)
                 +:+ ":undefined "
                 +:+ (if 12 <=? h then "PM" else "AM")
             | None => "12:undefined AM"
             end)).
Proof.
  split_and!; [done | done | |].
  - intros timeString hours rest Hne Hsplit Hnan.
    unfold TaskItem.formatTime.
    assert (truthy timeString = true) as ->.
    { by destruct timeString. }
    rewrite Hsplit. simpl. rewrite Hnan. by destruct rest.
  - intros timeString Hne Hcolon.
    assert (split ":" timeString = [timeString]) as Hsplit.
    { clear -Hcolon. induction timeString as [|c s IH]; [done|].
      simpl in *. destruct (Ascii.eqb c ":"); [discriminate|].
      by rewrite IH. }
    split; [done|]. unfold TaskItem.formatTime.
    assert (truthy timeString = true) as ->.
    { by destruct timeString. }
    rewrite Hsplit. simpl. by destruct (parseInt timeString).
Qed.

(** Times without a colon, and hours that are no number. *)
Example formatTime_without_colon :
  TaskItem.formatTime (text := ascii_text.text) (Some "0900")
  = Some "12:undefined PM" ∧
  TaskItem.formatTime (text := ascii_text.text) (Some "7")
  = Some "7:undefined AM" ∧
  TaskItem.formatTime (text := ascii_text.text) (Some "noon")
  = Some "12:undefined AM" ∧
  TaskItem.formatTime (text := ascii_text.text) (Some "soon:30")
  = Some "12:30 AM" ∧
  TaskItem.formatTime (text := ascii_text.text) (Some ":45")
  = Some "12:45 AM".
Proof. split_and!; vm_compute; reflexivity. Qed.

(** ** The calendar's task counts *)









(** Tasks due on names of [Object.prototype] leave the counts of the days
    as they are; under such a name the lookup gives no number, even when no
    task is due on it. *)
Example countOn_prototype_names :
  DatePickerCalendar.countOn
    [rent; spread groceries
             (mkPartial None None None (Some (Some "constructor")) None None
                None None None);
     spread groceries
       (mkPartial None None None (Some (Some "__proto__")) None None None
          None None)]
    "2024-01-01"
  = DatePickerCalendar.ANumber 1 ∧
  DatePickerCalendar.countOn [rent] "toString"
  = DatePickerCalendar.NotANumber ∧
  DatePickerCalendar.taskCountByDate
    [spread groceries
       (mkPartial None None None (Some (Some "constructor")) None None None
          None None);
     spread groceries
       (mkPartial None None None (Some (Some "__proto__")) None None None
          None None)]
  = {[ "constructor" := DatePickerCalendar.NotANumber ]}.
Proof. split_and!; vm_compute; reflexivity. Qed.

(** ** Local date strings *)

Lemma pretty_N_go_digits (n : N) (s : string) :
  (n < 10)%N → (0 < n)%N → pretty_N_go n s = String (pretty_N_char n) s.
Proof.
  intros Hlt Hpos. rewrite pretty_N_go_step by done.
  rewrite N.div_small, N.mod_small by done. apply pretty_N_go_0.
Qed.

Lemma pretty_Z_pos (z : Z) : 0 < z → pretty z = pretty_N_go (Z.to_N z) "".
Proof. destruct z as [|p|p]; [lia | done | lia]. Qed.

(** A number below 100 padded to two digits. *)
Lemma padStart2_pretty (k : Z) :
  0 <= k <= 99 →
  padStart2 (pretty k)
  = String (pretty_N_char (Z.to_N (k / 10)))
      (String (pretty_N_char (Z.to_N (k mod 10))) "").
Proof.
  intros Hk. destruct (decide (k = 0)) as [-> | Hne]; [done|].
  rewrite pretty_Z_pos by lia.
  destruct (decide (k < 10)) as [Hone | Htwo].
  - rewrite pretty_N_go_digits by lia. simpl.
    rewrite Z.div_small, Z.mod_small by lia. done.
  - rewrite pretty_N_go_step by lia.
    rewrite pretty_N_go_digits;
      [| zify; Z.to_euclidean_division_equations; lia
       | zify; Z.to_euclidean_division_equations; lia].
    simpl. do 2 f_equal.
    + f_equal. zify; Z.to_euclidean_division_equations; lia.
    + f_equal. f_equal. zify; Z.to_euclidean_division_equations; lia.
Qed.

(** A year of four digits. *)
Lemma pretty_year (y : Z) :
  1000 <= y <= 9999 →
  pretty y
  = String (pretty_N_char (Z.to_N (y / 1000)))
      (String (pretty_N_char (Z.to_N (y / 100 mod 10)))
         (String (pretty_N_char (Z.to_N (y / 10 mod 10)))
            (String (pretty_N_char (Z.to_N (y mod 10))) ""))).
Proof.
  intros Hy. rewrite pretty_Z_pos by lia.
  rewrite 3!pretty_N_go_step
    by (zify; Z.to_euclidean_division_equations; lia).
  rewrite pretty_N_go_digits
    by (zify; Z.to_euclidean_division_equations; lia).
  repeat f_equal; zify; Z.to_euclidean_division_equations; lia.
Qed.

Lemma getLocalDateString_digits (date : TaskList.LocalDate) :
  calendar_date date →
  let y := TaskList.getFullYear date in
  let m := TaskList.getMonth date + 1 in
  let d := TaskList.getDate date in
  TaskList.getLocalDateString date
  = String (pretty_N_char (Z.to_N (y / 1000)))
      (String (pretty_N_char (Z.to_N (y / 100 mod 10)))
         (String (pretty_N_char (Z.to_N (y / 10 mod 10)))
            (String (pretty_N_char (Z.to_N (y mod 10)))
               (String "-"
                  (String (pretty_N_char (Z.to_N (m / 10)))
                     (String (pretty_N_char (Z.to_N (m mod 10)))
                        (String "-"
                           (String (pretty_N_char (Z.to_N (d / 10)))
                              (String (pretty_N_char (Z.to_N (d mod 10)))
                                 ""))))))))).
Proof.
  intros (Hy & Hm & Hd). unfold TaskList.getLocalDateString.
  rewrite pretty_year by done. rewrite !padStart2_pretty by lia. done.
Qed.

Lemma digit_compare (x y : Z) :
  0 <= x <= 9 → 0 <= y <= 9 →
  Ascii.compare (pretty_N_char (Z.to_N x)) (pretty_N_char (Z.to_N y))
  = (x ?= y).
Proof.
  intros Hx Hy.
  assert (x = 0 ∨ x = 1 ∨ x = 2 ∨ x = 3 ∨ x = 4 ∨ x = 5 ∨ x = 6 ∨ x = 7
          ∨ x = 8 ∨ x = 9) as Hxs by lia.
  assert (y = 0 ∨ y = 1 ∨ y = 2 ∨ y = 3 ∨ y = 4 ∨ y = 5 ∨ y = 6 ∨ y = 7
          ∨ y = 8 ∨ y = 9) as Hys by lia.
  clear Hx Hy.
  repeat (destruct Hxs as [-> | Hxs]); try subst x;
    repeat (destruct Hys as [-> | Hys]); try subst y; reflexivity.
Qed.
Lemma compare_refl_string (s : string) : String.compare s s = Eq.
Proof.
  pose proof (String.compare_antisym s s) as Hanti.
  by destruct (String.compare s s).
Qed.

(** Comparing two local date strings is comparing the days. *)
Lemma getLocalDateString_compare (a b : TaskList.LocalDate) :
  calendar_date a → calendar_date b →
  String.compare (TaskList.getLocalDateString a) (TaskList.getLocalDateString b)
  = (day_key a ?= day_key b).
Proof.
  intros Ha Hb.
  rewrite (getLocalDateString_digits a Ha), (getLocalDateString_digits b Hb).
  destruct Ha as (Hya & Hma & Hda), Hb as (Hyb & Hmb & Hdb).
  unfold day_key. cbn [String.compare].
  change (Ascii.compare "-" "-") with Eq. cbv iota.
  rewrite !digit_compare by (Z.to_euclidean_division_equations; lia).
  repeat match goal with
         | |- context [?x ?= ?y] =>
             lazymatch x with
             | context [TaskList.getFullYear a * 10000] => fail
             | _ => destruct (Z.compare_spec x y)
             end
         end;
    symmetry;
    first [ apply Z.compare_eq_iff | apply Z.compare_lt_iff
          | apply Z.compare_gt_iff ];
    Z.to_euclidean_division_equations; lia.
Qed.
(** Order and equality of two local date strings. *)
Lemma local_date_strings (a b : TaskList.LocalDate) :
  calendar_date a → calendar_date b →
  (String.ltb (TaskList.getLocalDateString a) (TaskList.getLocalDateString b)
   = true ↔ before a b) ∧
  (TaskList.getLocalDateString a = TaskList.getLocalDateString b ↔ a = b).
Proof.
  intros Ha Hb.
  pose proof (getLocalDateString_compare a b Ha Hb) as Hcmp.
  pose proof Ha as (Hya & Hma & Hda). pose proof Hb as (Hyb & Hmb & Hdb).
  split.
  - unfold String.ltb. rewrite Hcmp.
    destruct (Z.compare_spec (day_key a) (day_key b)) as [Heq | Hlt | Hgt];
      unfold day_key, before in *; split; intros; try done; lia.
  - split; [|by intros ->]. intros Heq.
    rewrite Heq, compare_refl_string in Hcmp. symmetry in Hcmp.
    apply Z.compare_eq_iff in Hcmp. unfold day_key in Hcmp.
    destruct a, b; simpl in *. f_equal; lia.
Qed.

(** X26. The local date strings of the task list and of the calendar order
    and tell apart the days of the years 1000 to 9999 as the calendar does:
    one string reads before another exactly when its day is before the
    other's, two strings are equal exactly when the days are, and each has
    ten characters with the two hyphens the scanner splits at. *)
Theorem X26_local_date_strings_order (a b : TaskList.LocalDate) :
  calendar_date a → calendar_date b →
  (String.ltb (TaskList.getLocalDateString a) (TaskList.getLocalDateString b)
   = true ↔ before a b) ∧
  (TaskList.getLocalDateString a = TaskList.getLocalDateString b ↔ a = b) ∧
  String.length (TaskList.getLocalDateString a) = 10%nat ∧
  occurrences "-" (TaskList.getLocalDateString a) = 2%nat.
Proof.
  intros Ha Hb.
  pose proof (getLocalDateString_digits a Ha) as Hdigits.
  destruct (local_date_strings a b Ha Hb) as [Hlt Heq].
  split_and!; [done | done | |].
  - by rewrite Hdigits.
  - rewrite Hdigits. simpl.
    assert (∀ n, Ascii.eqb (pretty_N_char n) "-" = false) as Hdash.
    { intros n. unfold pretty_N_char. by repeat case_match. }
    by rewrite !Hdash.
Qed.

Lemma X26_local_date_strings_order_witness :
  (String.ltb
     (TaskList.getLocalDateString (TaskList.mkLocalDate 2023 11 31))
     (TaskList.getLocalDateString (TaskList.mkLocalDate 2024 0 2))
   = true
   ↔ before (TaskList.mkLocalDate 2023 11 31) (TaskList.mkLocalDate 2024 0 2)) ∧
  (TaskList.getLocalDateString (TaskList.mkLocalDate 2023 11 31)
   = TaskList.getLocalDateString (TaskList.mkLocalDate 2024 0 2)
   ↔ TaskList.mkLocalDate 2023 11 31 = TaskList.mkLocalDate 2024 0 2) ∧
  String.length
    (TaskList.getLocalDateString (TaskList.mkLocalDate 2023 11 31)) = 10%nat ∧
  occurrences "-"
    (TaskList.getLocalDateString (TaskList.mkLocalDate 2023 11 31)) = 2%nat.
Proof.
  apply (X26_local_date_strings_order (TaskList.mkLocalDate 2023 11 31)
           (TaskList.mkLocalDate 2024 0 2));
    unfold calendar_date; simpl; lia.
Defined.

Example getLocalDateString_new_years_eve :
  TaskList.getLocalDateString (TaskList.mkLocalDate 2023 11 31) = "2023-12-31".
Proof. vm_compute. reflexivity. Qed.

Example getLocalDateString_early_year :
  TaskList.getLocalDateString (TaskList.mkLocalDate 987 0 5) = "987-01-05".
Proof. vm_compute. reflexivity. Qed.

(** X27. The calendar greys out exactly the days gone by, and marks exactly
    today: for a day of the month shown, in the years 1000 to 9999, [isPast]
    holds exactly when that day is before today and [isToday] exactly when
    it is today; an empty cell is neither. *)
Theorem X27_calendar_marks_days (currentMonth today : TaskList.LocalDate)
    (day : Z) :
  calendar_date today →
  calendar_date (DayCell.dateOf currentMonth day) →
  (DayCell.isPast currentMonth today day = true
   ↔ before (DayCell.dateOf currentMonth day) today) ∧
  (DayCell.isToday currentMonth today day = true
   ↔ DayCell.dateOf currentMonth day = today) ∧
  DayCell.isPast currentMonth today 0 = false ∧
  DayCell.isToday currentMonth today 0 = false.
Proof.
  intros Htoday Hdate.
  destruct (local_date_strings (DayCell.dateOf currentMonth day) today Hdate Htoday)
    as (Hlt & Heq).
  assert ((day =? 0) = false) as Hday.
  { destruct Hdate as (_ & _ & Hd). simpl in Hd. lia. }
  unfold DayCell.isPast, DayCell.isToday. rewrite Hday.
  split_and!; [done | | done | done].
  rewrite bool_decide_eq_true. done.
Qed.

Lemma X27_calendar_marks_days_witness :
  (DayCell.isPast (TaskList.mkLocalDate 2024 0 1) (TaskList.mkLocalDate 2024 0 15)
     14 = true
   ↔ before (DayCell.dateOf (TaskList.mkLocalDate 2024 0 1) 14)
       (TaskList.mkLocalDate 2024 0 15)) ∧
  (DayCell.isToday (TaskList.mkLocalDate 2024 0 1)
     (TaskList.mkLocalDate 2024 0 15) 14 = true
   ↔ DayCell.dateOf (TaskList.mkLocalDate 2024 0 1) 14
     = TaskList.mkLocalDate 2024 0 15) ∧
  DayCell.isPast (TaskList.mkLocalDate 2024 0 1) (TaskList.mkLocalDate 2024 0 15)
    0 = false ∧
  DayCell.isToday (TaskList.mkLocalDate 2024 0 1)
    (TaskList.mkLocalDate 2024 0 15) 0 = false.
Proof.
  apply (X27_calendar_marks_days (TaskList.mkLocalDate 2024 0 1)
           (TaskList.mkLocalDate 2024 0 15) 14);
    unfold calendar_date; simpl; lia.
Defined.
